(** * rocky-stats: the data pipeline of [data_utils.py]

    A shallow embedding of the download cache, the EPEL and DockerHub
    loaders, the row filters and [add_total_column], with the properties
    the specification states about them.

    Python objects that the code shares or mutates (data frames, the file
    system) live in an explicit state; a computation is a function from
    that state to an exception or a value, together with the state it
    leaves behind.  An exception keeps the effects made before it. *)

From Stdlib Require Import ZArith Lia Ascii String.
From Stdlib.Strings Require Import Byte.
From stdpp Require Import base option list gmap strings fin_maps.

Local Open Scope Z_scope.

(** ** Exceptions and the state-and-exception monad *)

Module Py.

(** The exceptions the modelled code can raise.  The source defines no
    exception class of its own: these are the ones of [requests], of the
    built-in functions and the [os] module, and of pandas. *)
Inductive exn :=
| ConnectionError
| ChunkedEncodingError
| FileNotFoundError (path : string)
| NotADirectoryError (path : string)
| IsADirectoryError (path : string)
| FileExistsError (path : string)
| ValueError
| RecursionError
| KeyError (key : string)
| TypeError
| ReferenceError.


Definition M (S A : Type) : Type := S -> (exn + A) * S.

Definition ret {S A} (a : A) : M S A := fun s => (inr a, s).

Definition raise {S A} (e : exn) : M S A := fun s => (inl e, s).

Definition bind {S A B} (c : M S A) (k : A -> M S B) : M S B :=
  fun s =>
    match c s with
    | (inl e, s') => (inl e, s')
    | (inr a, s') => k a s'
    end.

(** [try: c except ...: ...], for the exceptions [handler] has a clause
    for; the others go on. *)
Definition try_except {S A} (c : M S A) (handler : exn -> option (M S A))
  : M S A :=
  fun s =>
    match c s with
    | (inl e, s') =>
        match handler e with
        | Some h => h s'
        | None => (inl e, s')
        end
    | (inr a, s') => (inr a, s')
    end.

Definition gets {S A} (f : S -> A) : M S A := fun s => (inr (f s), s).

Definition modify {S} (f : S -> S) : M S unit := fun s => (inr tt, f s).

(** [for x in l: body x] *)
Fixpoint for_each {S A} (l : list A) (body : A -> M S unit) : M S unit :=
  match l with
  | [] => ret tt
  | x :: l' => bind (body x) (fun _ => for_each l' body)
  end.

(** [for x in l: v = body x v], for a loop that rebinds one variable. *)
Fixpoint for_fold {S A B} (l : list A) (v : B) (body : A -> B -> M S B) : M S B :=
  match l with
  | [] => ret v
  | x :: l' => bind (body x v) (fun v' => for_fold l' v' body)
  end.

(** Python values, for an argument the code inspects dynamically. *)
Inductive value :=
| PyNone
| PyBool (b : bool)
| PyInt (n : Z)
| PyFloat (mantissa exponent : Z)
| PyStr (s : string).

#[export] Instance value_eq_dec : EqDecision value.
Proof. solve_decision. Defined.

(** [isinstance(v, int)], with the integer the value then stands for:
    [bool] is a subclass of [int]. *)
Definition as_int (v : value) : option Z :=
  match v with
  | PyInt n => Some n
  | PyBool b => Some (if b then 1 else 0)
  | _ => None
  end.

End Py.

Import Py.

Declare Scope py_scope.
Delimit Scope py_scope with py.
Notation "x <- c ;; k" := (bind c (fun x => k))
  (at level 100, c at next level, k at level 200, right associativity) : py_scope.
Notation "c ;;; k" := (bind c (fun _ => k))
  (at level 100, k at level 200, right associativity) : py_scope.

(** ** config.py *)

Module Config.

Definition DATA_DIR : string := "data/".

Definition DH_DISTROS : list string :=
  ["AlmaLinux"; "CentOS Linux"; "Oracle Linux Server";
   "Red Hat Enterprise Linux"; "Rocky Linux"].

Definition EPEL_REPOS : list string := ["epel-8"; "epel-9"; "epel-10"].

Definition ERROR_DATES : list string :=
  ["2023-05-07"; "2023-05-14"; "2023-10-29"; "2023-11-05"].

Definition CACHE_DAYS : Z := 7.

Definition VALID_ROCKY_VERSIONS : list string :=
  ["8.3"; "8.4"; "8.5"; "8.6"; "8.7"; "8.8"; "8.9"; "8.10";
   "9.0"; "9.1"; "9.2"; "9.3"; "9.4"; "9.5"; "9.6";
   "10.0"].

End Config.

(** ** The download cache: [download_file], [_download_with_progress] *)

Module Fetcher.

(** The file system is a tree of directories and regular files, without
    links and without permissions; one program uses it at a time.  A place
    in the tree is the list of the names that lead to it from the root,
    the innermost first: a [list string].  Modification times and the
    clock are [datetime] values, counted in microseconds. *)
Inductive entry :=
| Dir (mtime : Z)
| File (mtime : Z) (content : list byte).

Definition mtime_of (e : entry) : Z :=
  match e with Dir t => t | File t _ => t end.

(** The errors of the system calls below, and the exception Python raises
    for each. *)
Inductive errno := ENOENT | ENOTDIR | EISDIR | EEXIST.

Definition os_error (e : errno) (path : string) : exn :=
  match e with
  | ENOENT => FileNotFoundError path
  | ENOTDIR => NotADirectoryError path
  | EISDIR => IsADirectoryError path
  | EEXIST => FileExistsError path
  end.

(** The [Content-Length] header as [int] reads it: no header, a text that
    [int] accepts, given by its value, or a text that [int] rejects. *)
Inductive header :=
| NoHeader
| Integer (n : Z)
| NotAnInteger (text : string).

(** What [requests.get(url, stream=True)] meets at a URL: no connection,
    or a response with its status line, its [Content-Length] header and
    the chunks [iter_content] yields; [complete = false] is a connection
    lost after the last chunk listed. *)
Record response := Response {
  status_code : Z;
  content_length : header;
  chunks : list (list byte);
  complete : bool
}.

Inductive endpoint :=
| Unreachable
| Answers (r : response).

Inductive message :=
| OlderThanCacheDays (local_file : string)
| UpToDate (local_file : string)
| DoesNotExist (local_file : string)
| DownloadedSuccessfully (local_file : string).

Record world := World {
  fs : gmap (list string) entry;
  cwd : list string;
  now : Z;
  remote : string -> endpoint;
  requested : list string;
  progress_bar : list Z;
  stdout : list message
}.

Definition set_fs (f : gmap (list string) entry -> gmap (list string) entry)
    (w : world) : world :=
  World (f (fs w)) (cwd w) (now w) (remote w) (requested w) (progress_bar w)
        (stdout w).

Definition print (m : message) : M world unit :=
  modify (fun w =>
    World (fs w) (cwd w) (now w) (remote w) (requested w) (progress_bar w)
          (stdout w ++ [m])).

Definition progress_update (size : Z) : M world unit :=
  modify (fun w =>
    World (fs w) (cwd w) (now w) (remote w) (requested w)
          (progress_bar w ++ [size]) (stdout w)).

(** *** Path names *)

Definition is_sep (c : ascii) : bool := bool_decide (c = "/"%char).

Fixpoint endswith_sep (s : string) : bool :=
  match s with
  | EmptyString => false
  | String c EmptyString => is_sep c
  | String _ s' => endswith_sep s'
  end.

Definition startswith_sep (s : string) : bool :=
  match s with
  | String c _ => is_sep c
  | EmptyString => false
  end.

(** [posixpath.join] of two components. *)
Definition path_join (a b : string) : string :=
  if startswith_sep b then b
  else if bool_decide (a = "") || endswith_sep a then a +:+ b
  else a +:+ "/" +:+ b.

(** [posixpath.split]: the text after the last slash, and the text before
    it without the slashes it ends with, unless it is nothing but
    slashes.  The characters are read from the end. *)
Fixpoint take_name (l : list ascii) : list ascii :=
  match l with
  | [] => []
  | c :: l' => if is_sep c then [] else c :: take_name l'
  end.

Fixpoint drop_name (l : list ascii) : list ascii :=
  match l with
  | [] => []
  | c :: l' => if is_sep c then l else drop_name l'
  end.

Fixpoint drop_seps (l : list ascii) : list ascii :=
  match l with
  | [] => []
  | c :: l' => if is_sep c then drop_seps l' else l
  end.

Definition path_split (p : string) : string * string :=
  let r := rev (list_ascii_of_string p) in
  let head := drop_name r in
  let head := if forallb is_sep head then head else drop_seps head in
  (string_of_list_ascii (rev head), string_of_list_ascii (rev (take_name r))).

(** The names of a path, [p.split('/')]: an empty name stands where two
    slashes meet, and before a slash the path starts or after one it ends
    with. *)
Fixpoint components (p : string) : list string :=
  match p with
  | EmptyString => [EmptyString]
  | String c p' =>
      if is_sep c then EmptyString :: components p'
      else match components p' with
           | name :: names => String c name :: names
           | [] => [String c EmptyString]
           end
  end.

(** The names without the empty ones at the end. *)
Fixpoint strip (names : list string) : list string :=
  match names with
  | [] => []
  | name :: names' =>
      match strip names' with
      | [] => if decide (name = "") then [] else [name]
      | rest => name :: rest
      end
  end.

Definition trailing_slash (p : string) : bool :=
  bool_decide (strip (components p) <> components p).

(** The last name, and those before it. *)
Fixpoint unsnoc (names : list string) : option (list string * string) :=
  match names with
  | [] => None
  | name :: names' =>
      match unsnoc names' with
      | None => Some ([], name)
      | Some (init, last) => Some (name :: init, last)
      end
  end.

(** A name that names an entry of its directory. *)
Definition plain (name : string) : bool :=
  negb (bool_decide (name = "" \/ name = "." \/ name = "..")).

(** *** Path resolution *)

(** One name further from [cur]: the empty name and [.] stay, [..] goes
    to the parent, which for the root is the root. *)
Definition step (cur : list string) (name : string) : list string :=
  if bool_decide (name = "" \/ name = ".") then cur
  else if bool_decide (name = "..") then tail cur
  else name :: cur.

(** Every name is looked up in a directory. *)
Fixpoint walk (m : gmap (list string) entry) (cur names : list string)
  : errno + list string :=
  match names with
  | [] => inr cur
  | name :: names' =>
      match m !! cur with
      | Some (Dir _) => walk m (step cur name) names'
      | Some (File _ _) => inl ENOTDIR
      | None => inl ENOENT
      end
  end.

Definition start (cw : list string) (p : string) : list string :=
  if startswith_sep p then [] else cw.

(** [os.stat(p)] *)
Definition stat_at (m : gmap (list string) entry) (cw : list string) (p : string)
  : errno + entry :=
  if decide (p = "") then inl ENOENT
  else match walk m (start cw p) (components p) with
       | inl e => inl e
       | inr loc =>
           match m !! loc with
           | Some e => inr e
           | None => inl ENOENT
           end
       end.

(** Where [p] is to be made: the directory that is to hold it and the name
    it is to have there; [None] when [p] is the root. *)
Definition parent_at (m : gmap (list string) entry) (cw : list string) (p : string)
  : errno + option (list string * string) :=
  if decide (p = "") then inl ENOENT
  else match unsnoc (strip (components p)) with
       | None => inr None
       | Some (names, name) =>
           match walk m (start cw p) names with
           | inl e => inl e
           | inr dir =>
               match m !! dir with
               | Some (Dir _) => inr (Some (dir, name))
               | Some (File _ _) => inl ENOTDIR
               | None => inl ENOENT
               end
           end
       end.

(** The place of the file that [open(p, "wb")] opens. *)
Definition creat_at (m : gmap (list string) entry) (cw : list string) (p : string)
  : errno + list string :=
  match parent_at m cw p with
  | inl e => inl e
  | inr None => inl EISDIR
  | inr (Some (dir, name)) =>
      if negb (plain name) || trailing_slash p then inl EISDIR
      else match m !! (name :: dir) with
           | Some (Dir _) => inl EISDIR
           | _ => inr (name :: dir)
           end
  end.

Definition stat (w : world) (p : string) : errno + entry :=
  stat_at (fs w) (cwd w) p.

Definition creat (w : world) (p : string) : errno + list string :=
  creat_at (fs w) (cwd w) p.

(** An entry made in a directory changes the directory. *)
Definition add_entry (loc : list string) (e : entry) (t : Z)
    (m : gmap (list string) entry) : gmap (list string) entry :=
  <[loc := e]> (<[tail loc := Dir t]> m).

(** *** The calls of the standard library *)

Definition found (w : world) (p : string) : bool :=
  match stat w p with
  | inr _ => true
  | inl _ => false
  end.

(** [os.path.exists(p)] *)
Definition path_exists (p : string) : M world bool :=
  gets (fun w => found w p).

(** [os.path.getmtime(p)], as [datetime.fromtimestamp] reads it. *)
Definition getmtime (p : string) : M world Z :=
  fun w =>
    match stat w p with
    | inr e => (inr (mtime_of e), w)
    | inl e => (inl (os_error e p), w)
    end.

(** [os.mkdir(p)] *)
Definition mkdir (p : string) : M world unit :=
  fun w =>
    match parent_at (fs w) (cwd w) p with
    | inl e => (inl (os_error e p), w)
    | inr None => (inl (FileExistsError p), w)
    | inr (Some (dir, name)) =>
        if negb (plain name) then (inl (FileExistsError p), w)
        else match fs w !! (name :: dir) with
             | Some _ => (inl (FileExistsError p), w)
             | None =>
                 (inr tt,
                  set_fs (add_entry (name :: dir) (Dir (now w)) (now w)) w)
             end
    end.

(** [os.makedirs(name)]: the parent is made first when it is missing.
    The body of the function, with [makedirs] for the call of itself. *)
Definition makedirs_body (makedirs : string -> M world unit) (name : string)
  : M world unit :=
  let (head, tail) := path_split name in
  let (head, tail) :=
    if decide (tail = "") then path_split head else (head, tail) in
  (missing <- (if negb (bool_decide (head = ""))
                  && negb (bool_decide (tail = ""))
               then (head_exists <- path_exists head ;; ret (negb head_exists))
               else ret false) ;;
   if missing then
     try_except (makedirs head)
       (fun e => match e with
                 | FileExistsError _ => Some (ret tt)
                 | _ => None
                 end) ;;;
     if decide (tail = ".") then ret tt else mkdir name
   else mkdir name)%py.

(** The function calls itself on [head], which is shorter than [name]:
    one level more than [name] has characters is all the depth a call can
    use. *)
Fixpoint makedirs_from (depth : nat) : string -> M world unit :=
  match depth with
  | O => fun _ => raise RecursionError
  | S depth' => makedirs_body (makedirs_from depth')
  end.

Definition makedirs (name : string) : M world unit :=
  makedirs_from (S (String.length name)) name.

Definition requests_get (url : string) : M world response :=
  fun w =>
    let w' := World (fs w) (cwd w) (now w) (remote w) (requested w ++ [url])
                    (progress_bar w) (stdout w) in
    match remote w url with
    | Unreachable => (inl ConnectionError, w')
    | Answers r => (inr r, w')
    end.

(** [int(response.headers.get("Content-Length", 0))] *)
Definition int_of_header (h : header) : M world Z :=
  match h with
  | NoHeader => ret 0
  | Integer n => ret n
  | NotAnInteger _ => raise ValueError
  end.

(** [open(p, "wb")]: the file is made, or emptied when it is there.  The
    value is the open file, which later writes go to. *)
Definition open_wb (p : string) : M world (list string) :=
  fun w =>
    match creat w p with
    | inl e => (inl (os_error e p), w)
    | inr loc =>
        (inr loc,
         set_fs (fun m => match m !! loc with
                          | Some _ => <[loc := File (now w) []]> m
                          | None => add_entry loc (File (now w) []) (now w) m
                          end) w)
    end.

Definition file_write (file : list string) (data : list byte) : M world Z :=
  fun w =>
    let append e :=
      match e with
      | File _ c => File (now w) (c ++ data)
      | Dir t => Dir t
      end in
    (inr (Z.of_nat (length data)), set_fs (alter append file) w).

(** *** The two functions of [data_utils.py] *)

Definition _download_with_progress (url local_path local_file : string)
  : M world unit :=
  (response <- requests_get url ;;
   total_size <- int_of_header (content_length response) ;;
   file <- open_wb local_path ;;
   for_each (chunks response) (fun data =>
     size <- file_write file data ;;
     progress_update size) ;;;
   (if complete response then ret tt else raise ChunkedEncodingError) ;;;
   print (DownloadedSuccessfully local_file))%py.

Definition timedelta_days (days : Z) : Z := days * 86400 * 1000000.

Definition download_file (url local_dir local_file : string) : M world unit :=
  (let local_path := path_join local_dir local_file in
   dir_exists <- path_exists local_dir ;;
   (if negb dir_exists then makedirs local_dir else ret tt) ;;;
   file_exists <- path_exists local_path ;;
   if file_exists then
     file_datetime <- getmtime local_path ;;
     current_datetime <- gets now ;;
     if bool_decide (current_datetime - file_datetime
                     > timedelta_days Config.CACHE_DAYS)
     then print (OlderThanCacheDays local_file) ;;;
          _download_with_progress url local_path local_file
     else print (UpToDate local_file)
   else
     print (DoesNotExist local_file) ;;;
     _download_with_progress url local_path local_file)%py.

End Fetcher.

(** ** Objects: data frames are shared by reference *)

Module Store.

(** An object identifier is a position in the store; objects are never
    freed.  Python has no dangling identifier: [ReferenceError] only
    makes [deref] total. *)
Definition ref := nat.
Definition store (F : Type) := list F.

Definition alloc {F} (f : F) : M (store F) ref :=
  fun h => (inr (length h), h ++ [f]).

Definition deref {F} (r : ref) : M (store F) F :=
  fun h =>
    match h !! r with
    | Some f => (inr f, h)
    | None => (inl ReferenceError, h)
    end.

Definition update {F} (r : ref) (g : F -> F) : M (store F) unit :=
  fun h =>
    match h !! r with
    | Some f => (inr tt, <[r := g f]> h)
    | None => (inl ReferenceError, h)
    end.

(** [df.copy()] *)
Definition copy {F} (r : ref) : M (store F) ref :=
  (f <- deref r ;; alloc f)%py.

(** The object a computation returned, read in the store it left. *)
Definition returned {F} (out : (exn + ref) * store F) : option F :=
  match out.1 with
  | inr r => out.2 !! r
  | inl _ => None
  end.

End Store.

Import Store.

(** ** Timestamps

    pandas holds a parsed date as a [datetime64[ns]] timestamp: nanoseconds
    since 1970-01-01T00:00.  A date string compared with such a column is
    parsed first; the configuration writes its dates as [YYYY-MM-DD]. *)

Module Timestamp.

Definition digit (c : ascii) : option Z :=
  let n := Z.of_nat (nat_of_ascii c) in
  if bool_decide (48 <= n <= 57) then Some (n - 48) else None.

Fixpoint digits (acc : Z) (l : list ascii) : option Z :=
  match l with
  | [] => Some acc
  | c :: l' => d ← digit c; digits (10 * acc + d) l'
  end.

Definition is_leap (y : Z) : bool :=
  bool_decide (y mod 4 = 0) && (negb (bool_decide (y mod 100 = 0))
                                || bool_decide (y mod 400 = 0)).

Definition days_in_month (y m : Z) : Z :=
  if bool_decide (m = 2) then (if is_leap y then 29 else 28)
  else if bool_decide (m = 4 \/ m = 6 \/ m = 9 \/ m = 11) then 30
  else 31.

(** Days from 1970-01-01 to the civil date [y]-[m]-[d]. *)
Definition days_from_civil (y m d : Z) : Z :=
  let y' := if bool_decide (m <= 2) then y - 1 else y in
  let era := y' / 400 in
  let yoe := y' - era * 400 in
  let mp := (m + 9) mod 12 in
  let doy := (153 * mp + 2) / 5 + d - 1 in
  let doe := yoe * 365 + yoe / 4 - yoe / 100 + doy in
  era * 146097 + doe - 719468.

Definition ns_per_day : Z := 86400 * 1000000000.

Definition of_date (y m d : Z) : Z := days_from_civil y m d * ns_per_day.

Definition to_datetime (s : string) : option Z :=
  match String.list_ascii_of_string s with
  | [y1; y2; y3; y4; "-"%char; m1; m2; "-"%char; d1; d2] =>
      y ← digits 0 [y1; y2; y3; y4];
      m ← digits 0 [m1; m2];
      d ← digits 0 [d1; d2];
      if bool_decide (1 <= m <= 12 /\ 1 <= d <= days_in_month y m)
      then Some (of_date y m d) else None
  | _ => None
  end.

End Timestamp.

(** ** EPEL: [load_epel_data] and the row filters *)

Module Epel.

(** One line of [epel.csv], typed as [read_csv] is told to type it. *)
Record RawUsageRow := {
  week_start : Z;
  week_end : Z;
  os_name : string;
  os_version : string;
  os_variant : string;
  os_arch : string;
  repo_tag : string;
  repo_arch : string;
  sys_age : Z;
  hits : Z
}.

(** A frame keeps, with every row, the label the row has in the index. *)
Definition Frame := list (nat * RawUsageRow).

Definition frame_index (f : Frame) : list nat := f.*1.

(** [pd.read_csv] without [index_col]: a [RangeIndex] from 0. *)
Definition read_csv (csv : list RawUsageRow) : Frame :=
  zip (seq 0 (length csv)) csv.

(** [df[mask]], the mask computed row by row from the frame itself. *)
Definition getitem_mask (df : ref) (mask : RawUsageRow -> Prop)
    `{!forall r, Decision (mask r)} : M (store Frame) ref :=
  (f <- deref df ;; alloc (filter (fun ir => mask ir.2) f))%py.

(** [df.index] *)
Definition get_index (df : ref) : M (store Frame) (list nat) :=
  (f <- deref df ;; ret (frame_index f))%py.

(** [df.drop(labels)]: every row that carries one of the labels goes; a
    label the index does not have is an error. *)
Definition drop (df : ref) (labels : list nat) : M (store Frame) ref :=
  (f <- deref df ;;
   if bool_decide (Forall (fun i => i ∈ frame_index f) labels)
   then alloc (filter (fun ir => ir.1 ∉ labels) f)
   else raise (KeyError "not found in axis"))%py.

(** [df['week_end'] == error_date], a timestamp column against a string:
    a string that is no date equals no timestamp. *)
Definition eq_date (error_date : string) (r : RawUsageRow) : Prop :=
  Timestamp.to_datetime error_date = Some (week_end r).

#[export] Instance eq_date_dec d r : Decision (eq_date d r).
Proof. unfold eq_date. apply _. Defined.

Definition load_epel_data (csv : list RawUsageRow) : M (store Frame) ref :=
  (df <- alloc (read_csv csv) ;;
   (* Filter to EPEL repositories only *)
   df <- getitem_mask df (fun r => repo_tag r ∈ Config.EPEL_REPOS) ;;
   (* Remove data errors *)
   df <- for_fold Config.ERROR_DATES df (fun error_date df =>
           hit <- getitem_mask df (eq_date error_date) ;;
           labels <- get_index hit ;;
           drop df labels) ;;
   ret df)%py.

(** The two columns [parse_dates] turns into timestamps. *)
Inductive date_column := week_end_column | week_start_column.

Definition date_of (c : date_column) (r : RawUsageRow) : Z :=
  match c with
  | week_end_column => week_end r
  | week_start_column => week_start r
  end.

(** [date_column] defaults to ['week_end']. *)
Definition filter_by_date (df : ref) (start_date : Z) (date_column : date_column)
  : M (store Frame) ref :=
  getitem_mask df (fun r => date_of date_column r > start_date).

Definition filter_by_system_age (df : ref) (age_condition : value)
  : M (store Frame) ref :=
  if decide (age_condition = PyStr "longterm") then
    getitem_mask df (fun r => sys_age r > 1)
  else if decide (age_condition = PyStr "ephemeral") then
    getitem_mask df (fun r => sys_age r = 1)
  else
    match as_int age_condition with
    | Some n => getitem_mask df (fun r => sys_age r > n)
    | None => ret df
    end.

Definition filter_by_repo_tag (df : ref) (tag : string) : M (store Frame) ref :=
  getitem_mask df (fun r => repo_tag r = tag).

Definition filter_by_os_name (df : ref) (name : string) : M (store Frame) ref :=
  getitem_mask df (fun r => os_name r = name).

(** [arch_filter] defaults to ['altarch']. *)
Definition filter_by_arch (df : ref) (arch_filter : string) : M (store Frame) ref :=
  if decide (arch_filter = "altarch") then
    getitem_mask df (fun r => repo_arch r <> "x86_64")
  else
    getitem_mask df (fun r => repo_arch r = arch_filter).

Definition filter_valid_rocky_versions (df : ref) : M (store Frame) ref :=
  getitem_mask df (fun r => os_version r ∈ Config.VALID_ROCKY_VERSIONS).

(** The timestamps the configured error dates stand for. *)
Definition error_timestamps : list Z :=
  omap Timestamp.to_datetime Config.ERROR_DATES.

(** [out] returns a new or old frame whose labelled rows are a
    subsequence of those of [f], and the object [df] still is [f]. *)
Definition returns_subsequence (df : ref) (f : Frame)
    (out : (exn + ref) * store Frame) : Prop :=
  exists r f', out.1 = inr r /\ out.2 !! r = Some f'
               /\ sublist f' f /\ out.2 !! df = Some f.

End Epel.

(** ** Column-indexed frames

    The container table and the pivot tables are addressed by column.  A
    numeric cell is an integer or NaN ([None]); the counters are whole
    numbers, which pandas' [float64] holds exactly.  A cell of an [object]
    column is a string or NaN: [read_csv] leaves NaN where a line has no
    text, and [diff] and [+] put it where they have no result. *)

Module Pandas.

Inductive series :=
| Numeric (cells : list (option Z))
| Object (cells : list (option string)).

Record DataFrame (I : Type) := mkDataFrame {
  index : list I;
  columns : list (string * series)
}.
Arguments mkDataFrame {I} _ _.
Arguments index {I} _.
Arguments columns {I} _.

Definition nan_add (x y : option Z) : option Z :=
  match x, y with
  | Some a, Some b => Some (a + b)
  | _, _ => None
  end.

Definition nan_sub (x y : option Z) : option Z :=
  match x, y with
  | Some a, Some b => Some (a - b)
  | _, _ => None
  end.

Definition str_add (x y : option string) : option string :=
  match x, y with
  | Some a, Some b => Some (a +:+ b)
  | _, _ => None
  end.

(** A number and a string in one row: [+] has no result for them.  Where
    either cell is NaN the sum is NaN. *)
Definition add_raises (x : option Z) (y : option string) : bool :=
  match x, y with
  | Some _, Some _ => true
  | _, _ => false
  end.

Definition nan_cell (x : option Z) (y : option string) : option string := None.

(** [a + b] on two columns of one frame: cell by cell.  With an [object]
    column on either side the sum is an [object] column. *)
Definition series_add {S} (a b : series) : M S series :=
  match a, b with
  | Numeric x, Numeric y => ret (Numeric (zip_with nan_add x y))
  | Object x, Object y => ret (Object (zip_with str_add x y))
  | Numeric x, Object y =>
      if existsb id (zip_with add_raises x y) then raise TypeError
      else ret (Object (zip_with nan_cell x y))
  | Object x, Numeric y =>
      if existsb id (zip_with add_raises y x) then raise TypeError
      else ret (Object (zip_with nan_cell y x))
  end.

(** [Series.diff()]: each cell minus the one above it; the first cell has
    nothing above it and becomes NaN. *)
Fixpoint diff_from (prev : option Z) (l : list (option Z)) : list (option Z) :=
  match l with
  | [] => []
  | x :: l' => nan_sub x prev :: diff_from x l'
  end.

(** [-] on two cells of an [object] column has a result, NaN, only when
    both are NaN: a string can neither be subtracted nor subtracted from. *)
Definition sub_raises (x prev : option string) : bool :=
  match x, prev with
  | None, None => false
  | _, _ => true
  end.

(** On an [object] column the cells are subtracted pairwise, each from the
    one below it: a column of at most one row has no pair, and no
    subtraction is made. *)
Definition series_diff {S} (s : series) : M S series :=
  match s with
  | Numeric l => ret (Numeric (diff_from None l))
  | Object l =>
      if existsb id (zip_with sub_raises (drop 1 l) l) then raise TypeError
      else ret (Object (replicate (length l) None))
  end.

Definition series_drop (n : nat) (s : series) : series :=
  match s with
  | Numeric l => Numeric (drop n l)
  | Object l => Object (drop n l)
  end.

Fixpoint map_columns {S} (g : series -> M S series) (cols : list (string * series))
  : M S (list (string * series)) :=
  match cols with
  | [] => ret []
  | (name, s) :: cols' =>
      (s' <- g s ;; rest <- map_columns g cols' ;; ret ((name, s') :: rest))%py
  end.

Section Frames.
Context {I : Type}.

(** [df.diff()] *)
Definition diff (df : ref) : M (store (DataFrame I)) ref :=
  (f <- deref df ;;
   cols <- map_columns series_diff (columns f) ;;
   alloc (mkDataFrame (index f) cols))%py.

(** [df.iloc[n:]] *)
Definition iloc_from (n : nat) (df : ref) : M (store (DataFrame I)) ref :=
  (f <- deref df ;;
   alloc (mkDataFrame (drop n (index f))
                      (prod_map id (series_drop n) <$> columns f)))%py.

Fixpoint lookup_column (name : string) (cols : list (string * series))
  : option series :=
  match cols with
  | [] => None
  | (n, s) :: cols' => if decide (n = name) then Some s else lookup_column name cols'
  end.

(** [df[name]] *)
Definition getitem (df : ref) (name : string) : M (store (DataFrame I)) series :=
  (f <- deref df ;;
   match lookup_column name (columns f) with
   | Some s => ret s
   | None => raise (KeyError name)
   end)%py.

Fixpoint set_column (name : string) (s : series) (cols : list (string * series))
  : list (string * series) :=
  match cols with
  | [] => [(name, s)]
  | (n, c) :: cols' =>
      if decide (n = name) then (name, s) :: cols'
      else (n, c) :: set_column name s cols'
  end.

(** [df[name] = s]: the column is replaced where it stands, or added
    last. *)
Definition setitem (df : ref) (name : string) (s : series)
  : M (store (DataFrame I)) unit :=
  update df (fun f => mkDataFrame (index f) (set_column name s (columns f))).

(** [pd.DataFrame(index=index, columns=names)]: every cell NaN. *)
Definition new_frame (idx : list I) (names : list string)
  : M (store (DataFrame I)) ref :=
  alloc (mkDataFrame idx
           ((fun n => (n, Numeric (replicate (length idx) None))) <$> names)).

(** [df[c0] + df[c1] + ...], evaluated left to right. *)
Definition sum_of (df : ref) (c0 : string) (cs : list string)
  : M (store (DataFrame I)) series :=
  (s0 <- getitem df c0 ;;
   for_fold cs s0 (fun c acc => s <- getitem df c ;; series_add acc s))%py.

Definition cell (l : list (option Z)) (i : nat) : Z :=
  default 0 (mjoin (l !! i)).

(** Row [i] of [df.sum(numeric_only=True, axis=1)]: NaN counts as 0. *)
Definition row_sum (cols : list (string * series)) (i : nat) : Z :=
  foldr (fun c acc =>
           match c.2 with
           | Numeric l => cell l i + acc
           | Object _ => acc
           end) 0 cols.

Definition sum_axis1 (f : DataFrame I) : series :=
  Numeric ((fun i => Some (row_sum (columns f) i)) <$> seq 0 (length (index f))).

End Frames.

(** What [Series.diff] makes of a column when it does not raise. *)
Definition diffed (s : series) : series :=
  match s with
  | Numeric l => Numeric (diff_from None l)
  | Object l => Object (replicate (length l) None)
  end.

(** The columns of which [Series.diff] does not raise. *)
Definition diffable (s : series) : Prop :=
  match s with
  | Numeric _ => True
  | Object l => existsb id (zip_with sub_raises (drop 1 l) l) = false
  end.

#[export] Instance diffable_dec s : Decision (diffable s).
Proof. destruct s; apply _. Defined.

Definition is_numeric (s : series) : Prop :=
  match s with Numeric _ => True | Object _ => False end.

#[export] Instance is_numeric_dec s : Decision (is_numeric s).
Proof. destruct s; apply _. Defined.

(** A cumulative counter: whole numbers that never go down. *)
Definition non_decreasing (vs : list Z) : Prop :=
  forall i x y, vs !! i = Some x -> vs !! S i = Some y -> x <= y.

Definition cumulative (s : series) : Prop :=
  exists vs, s = Numeric (Some <$> vs) /\ non_decreasing vs.

(** A column of numbers, none of them negative or NaN. *)
Definition non_negative (l : list (option Z)) : Prop :=
  Forall (fun c => exists d, c = Some d /\ 0 <= d) l.

End Pandas.

Import Pandas.

(** ** DockerHub: [load_dockerhub_data] *)

Module DockerHub.

(** The terms that follow [df['library/almalinux']] in the AlmaLinux sum,
    and those that follow [df['redhat/ubi8']] in the RHEL sum, in the
    order the source adds them. *)
Definition ALMALINUX : list string :=
  ["almalinux/8-base"; "almalinux/8-init"; "almalinux/8-micro";
   "almalinux/8-minimal"; "almalinux/9-base"; "almalinux/9-init";
   "almalinux/9-micro"; "almalinux/9-minimal"; "almalinux/almalinux";
   "almalinux/amd64"; "almalinux/arm64v8"; "almalinux/i386";
   "almalinux/ppc64le"; "almalinux/s390x"].

Definition RHEL : list string :=
  ["redhat/ubi8-init"; "redhat/ubi8-micro"; "redhat/ubi8-minimal";
   "redhat/ubi9"; "redhat/ubi9-init"; "redhat/ubi9-micro";
   "redhat/ubi9-minimal"].

(** [csv] is the file as [read_csv(..., index_col=0, parse_dates=['Date'])]
    returns it: the dates are the index, the counters the columns.

    "Load and process": [pd.read_csv(...).diff().iloc[1:]]. *)
Definition load_and_process (csv : DataFrame Z) : M (store (DataFrame Z)) ref :=
  (df <- alloc csv ;;
   df <- diff df ;;
   iloc_from 1 df)%py.

Definition load_dockerhub_data (csv : DataFrame Z) : M (store (DataFrame Z)) ref :=
  (df <- load_and_process csv ;;
   idx <- (f <- deref df ;; ret (index f)) ;;
   dh_dataframe <- new_frame idx Config.DH_DISTROS ;;
   (* Aggregate AlmaLinux containers *)
   s <- sum_of df "library/almalinux" ALMALINUX ;;
   setitem dh_dataframe "AlmaLinux" s ;;;
   (* Other distributions *)
   s <- getitem df "library/centos" ;;
   setitem dh_dataframe "CentOS Linux" s ;;;
   s <- getitem df "library/oraclelinux" ;;
   setitem dh_dataframe "Oracle Linux Server" s ;;;
   (* Aggregate RHEL containers *)
   s <- sum_of df "redhat/ubi8" RHEL ;;
   setitem dh_dataframe "Red Hat Enterprise Linux" s ;;;
   (* Aggregate Rocky Linux containers *)
   s <- sum_of df "library/rockylinux" ["rockylinux/rockylinux"] ;;
   setitem dh_dataframe "Rocky Linux" s ;;;
   ret dh_dataframe)%py.

(** Every raw column the aggregation reads. *)
Definition raw_columns : list string :=
  "library/almalinux" :: ALMALINUX
  ++ ["library/centos"; "library/oraclelinux"]
  ++ "redhat/ubi8" :: RHEL
  ++ ["library/rockylinux"; "rockylinux/rockylinux"].

(** The frame [load_and_process] returns when [diff] does not raise. *)
Definition processed (csv : DataFrame Z) : DataFrame Z :=
  mkDataFrame (drop 1 (index csv))
    (prod_map id (series_drop 1) <$> (prod_map id diffed <$> columns csv)).

(** What a sum of columns of [f] comes to: the sum, when [f] has every
    column named, or the [KeyError] of one it lacks.  [Phi] is any
    property of columns that the sum is to keep. *)
Definition present (f : DataFrame Z) (c : string) : Prop :=
  is_Some (lookup_column c (columns f)).

Definition sum_outcome (Phi : list (option Z) -> Prop) (f : DataFrame Z)
    (cs : list string) (res : exn + series) : Prop :=
  match res with
  | inr s => exists l, s = Numeric l /\ Phi l /\ Forall (present f) cs
  | inl e => exists k, e = KeyError k /\ k ∈ cs
                       /\ lookup_column k (columns f) = None
  end.

(** What [load_dockerhub_data] comes to on a file of numeric columns:
    the [KeyError] of a column the file lacks, or a frame of the five
    distributions, each column a sum of columns of [processed csv]. *)
Definition load_outcome (Phi : list (option Z) -> Prop) (csv : DataFrame Z)
    (res : exn + ref) (h' : store (DataFrame Z)) : Prop :=
  match res with
  | inr r =>
      exists cols,
        h' !! r = Some (mkDataFrame (drop 1 (index csv)) cols)
        /\ cols.*1 = Config.DH_DISTROS
        /\ Forall (fun c => exists l, c.2 = Numeric l /\ Phi l) cols
        /\ Forall (present (processed csv)) raw_columns
  | inl e =>
      exists k, e = KeyError k /\ k ∈ raw_columns
                /\ lookup_column k (columns (processed csv)) = None
  end.

End DockerHub.

(** ** Table builder: [add_total_column] *)

Module TableBuilder.

Section AddTotal.
Context {I : Type}.

Definition add_total_column (df : ref) : M (store (DataFrame I)) ref :=
  (df_copy <- copy df ;;
   total <- (f <- deref df_copy ;; ret (sum_axis1 f)) ;;
   setitem df_copy "total" total ;;;
   ret df_copy)%py.

End AddTotal.

End TableBuilder.

Module EpelExamples.
Import Epel.

Definition row (week_end : Z) (version tag arch : string) (age : Z) : RawUsageRow :=
  {| week_start := week_end - 6 * Timestamp.ns_per_day; week_end := week_end;
     os_name := "Rocky Linux"; os_version := version; os_variant := "generic";
     os_arch := arch; repo_tag := tag; repo_arch := arch;
     sys_age := age; hits := 10 |}.

Definition epel_csv : list RawUsageRow :=
  [row (Timestamp.of_date 2023 5 7) "9.6" "epel-9" "x86_64" 1;
   row (Timestamp.of_date 2023 5 21) "9.7" "epel-9" "aarch64" 2;
   row (Timestamp.of_date 2023 5 7) "8.10" "epel-7" "x86_64" 3;
   row (Timestamp.of_date 2023 5 28) "9.6" "epel-8" "x86_64" 4].

End EpelExamples.

Module PandasExamples.

(** A pivot table of two dates by two distributions. *)
Definition hits_table : DataFrame Z :=
  mkDataFrame [Timestamp.of_date 2024 1 7; Timestamp.of_date 2024 1 14]
    [("AlmaLinux", Numeric [Some 1; Some 2]);
     ("Rocky Linux", Numeric [Some 10; Some 20])].

(** A container file of three days, and one that has every column the
    aggregation reads, each with the same counters. *)
Definition pulls : list (option Z) := [Some 100; Some 140; Some 142].

Definition three_days : list Z :=
  [Timestamp.of_date 2024 1 1; Timestamp.of_date 2024 1 2;
   Timestamp.of_date 2024 1 3].

Definition one_column_csv : DataFrame Z :=
  mkDataFrame three_days [("library/rockylinux", Numeric pulls)].

Definition full_csv : DataFrame Z :=
  mkDataFrame three_days ((fun c => (c, Numeric pulls)) <$> DockerHub.raw_columns).

End PandasExamples.

Module FetcherExamples.
Import Fetcher.

Definition csv_bytes : list byte := [x61; x2c; x62; x0a; x31; x2c; x32; x0a].
Definition error_page : list byte := [x6f; x6f; x70; x73].

Definition server_error : response :=
  Response 500 (Integer 4) [error_page] true.

(** The checkout the scripts are run in, with its [data] directory. *)
Definition checkout : list string := ["rocky-stats"].

Definition epel_csv_file : list string := "epel.csv" :: "data" :: checkout.

(** A cache file written at time 0 and read [age] microseconds later. *)
Definition cached (age : Z) (ep : endpoint) : world :=
  World {[ [] := Dir 0; checkout := Dir 0; "data" :: checkout := Dir 0;
           epel_csv_file := File 0 csv_bytes ]}
        checkout age (fun _ => ep) [] [] [].

End FetcherExamples.

(** ** The fetcher over time and against other servers *)

Module FetcherScenarios.
Import Fetcher.

(** The same world read at another time of the clock. *)
Definition at_time (t : Z) (w : world) : world :=
  World (fs w) (cwd w) t (remote w) (requested w) (progress_bar w) (stdout w).

(** The same world with every URL answered by [ep]. *)
Definition serving (ep : endpoint) (w : world) : world :=
  World (fs w) (cwd w) (now w) (fun _ => ep) (requested w) (progress_bar w)
        (stdout w).

(** The world after a request for [url]. *)
Definition asked (url : string) (w : world) : world :=
  World (fs w) (cwd w) (now w) (remote w) (requested w ++ [url])
        (progress_bar w) (stdout w).

(** The same world with another network. *)
Definition set_remote (net : string -> endpoint) (w : world) : world :=
  World (fs w) (cwd w) (now w) net (requested w) (progress_bar w) (stdout w).

(** A computation that does not look at the network. *)
Definition offline {A} (c : M world A) : Prop :=
  forall net w, c (set_remote net w) = ((c w).1, set_remote net (c w).2).

(** Every directory of [m] is a directory of [m'], and nothing of [m] is
    missing from [m']. *)
Definition keeps_directories (m m' : gmap (list string) entry) : Prop :=
  forall l t, m !! l = Some (Dir t) -> exists t', m' !! l = Some (Dir t').

Definition keeps_entries (m m' : gmap (list string) entry) : Prop :=
  forall l, is_Some (m !! l) -> is_Some (m' !! l).

(** What [tqdm] is told after each chunk: the size of the chunk. *)
Definition sizes (cs : list (list byte)) : list Z :=
  (fun data => Z.of_nat (length data)) <$> cs.

(** The file system once [body] has been written to the file at [file]. *)
Definition written (file : list string) (body : list byte) (w : world)
  : gmap (list string) entry :=
  match fs w !! file with
  | Some _ => <[file := File (now w) body]> (fs w)
  | None => add_entry file (File (now w) body) (now w) (fs w)
  end.

(** [download_file] goes to the network and can write the cache file:
    the directory is there, [open] finds the place [file] for the cache
    file, and no file is there or one older than [CACHE_DAYS]. *)
Definition needs_download (local_dir local_file : string) (w : world)
    (file : list string) : Prop :=
  found w local_dir = true
  /\ creat w (path_join local_dir local_file) = inr file
  /\ (fs w !! file = None
      \/ exists m c, fs w !! file = Some (File m c)
                     /\ now w - m > timedelta_days Config.CACHE_DAYS).

(** The cache file is missing or older than [CACHE_DAYS], whether it can
    be written or not. *)
Definition wants_download (local_dir local_file : string) (w : world) : Prop :=
  found w local_dir = true
  /\ match stat w (path_join local_dir local_file) with
     | inr e => now w - mtime_of e > timedelta_days Config.CACHE_DAYS
     | inl _ => True
     end.

(** A name of one component: no slash in it, and not empty, [.] or [..]. *)
Definition single_name (f : string) : Prop :=
  forallb (fun c => negb (is_sep c)) (list_ascii_of_string f) = true
  /\ plain f = true.

(** A response whose [Content-Length], if it has one, is a number. *)
Definition readable (r : response) : Prop :=
  forall text, content_length r <> NotAnInteger text.

(** The response [r] under another status code. *)
Definition with_status (code : Z) (r : response) : response :=
  Response code (content_length r) (chunks r) (complete r).

(** A server that sends its file in two chunks, one that loses the
    connection after the first, and one whose [Content-Length] is not a
    number. *)
Definition page_chunks : list (list byte) :=
  [[x61; x2c; x62; x0a]; [x33; x2c; x34; x0a]].

Definition page : response := Response 200 (Integer 8) page_chunks true.
Definition cut_off : response :=
  Response 200 (Integer 8) [[x61; x2c; x62; x0a]] false.
Definition garbled : response :=
  Response 200 (NotAnInteger "8, 8") page_chunks true.

(** A cache file eight days old, and the server [ep]. *)
Definition stale (ep : endpoint) : world :=
  FetcherExamples.cached (timedelta_days 8) ep.

(** A checkout in which nothing was downloaded yet: no [data] directory. *)
Definition fresh_checkout (ep : endpoint) : world :=
  World {[ [] := Dir 0; FetcherExamples.checkout := Dir 0 ]}
        FetcherExamples.checkout 9 (fun _ => ep) [] [] [].

(** [DATA_DIR + local_file], the path the loaders hand to [pd.read_csv]. *)
Definition csv_path (local_file : string) : string :=
  Config.DATA_DIR +:+ local_file.

End FetcherScenarios.

(** ** Calls of the row filters *)

Module EpelCalls.
Import Epel.

(** One call of a row filter of [data_utils.py], with its arguments. *)
Inductive row_filter :=
| ByDate (start_date : Z) (col : date_column)
| BySystemAge (age_condition : value)
| ByRepoTag (tag : string)
| ByOsName (name : string)
| ByArch (arch_filter : string)
| ValidRockyVersions.

Definition call (c : row_filter) (df : ref) : M (store Frame) ref :=
  match c with
  | ByDate start_date col => filter_by_date df start_date col
  | BySystemAge age_condition => filter_by_system_age df age_condition
  | ByRepoTag tag => filter_by_repo_tag df tag
  | ByOsName name => filter_by_os_name df name
  | ByArch arch_filter => filter_by_arch df arch_filter
  | ValidRockyVersions => filter_valid_rocky_versions df
  end.

(** The rows a call keeps. *)
Definition keeps (c : row_filter) (r : RawUsageRow) : Prop :=
  match c with
  | ByDate start_date col => date_of col r > start_date
  | BySystemAge age_condition =>
      if decide (age_condition = PyStr "longterm") then sys_age r > 1
      else if decide (age_condition = PyStr "ephemeral") then sys_age r = 1
      else match as_int age_condition with
           | Some n => sys_age r > n
           | None => True
           end
  | ByRepoTag tag => repo_tag r = tag
  | ByOsName name => os_name r = name
  | ByArch arch_filter =>
      if decide (arch_filter = "altarch") then repo_arch r <> "x86_64"
      else repo_arch r = arch_filter
  | ValidRockyVersions => os_version r ∈ Config.VALID_ROCKY_VERSIONS
  end.

#[export] Instance keeps_dec c r : Decision (keeps c r).
Proof.
  destruct c; simpl; try apply _.
  - repeat case_decide; try apply _. destruct (as_int age_condition); apply _.
  - case_decide; apply _.
Defined.

End EpelCalls.

(** ** The aggregation as a table of groups *)

Module DockerHubGroups.
Import DockerHub.

(** The sums [load_dockerhub_data] writes out, as data: each distribution
    with the raw columns that roll up into it, in the order of the source. *)
Definition group_definitions : list (string * list string) :=
  [("AlmaLinux", "library/almalinux" :: ALMALINUX);
   ("CentOS Linux", ["library/centos"]);
   ("Oracle Linux Server", ["library/oraclelinux"]);
   ("Red Hat Enterprise Linux", "redhat/ubi8" :: RHEL);
   ("Rocky Linux", ["library/rockylinux"; "rockylinux/rockylinux"])].

Definition numeric_column (f : DataFrame Z) (c : string) : option (list (option Z)) :=
  match lookup_column c (columns f) with
  | Some (Numeric l) => Some l
  | _ => None
  end.

(** [acc + f[c] + ...] over the columns named, cell by cell. *)
Fixpoint add_columns (f : DataFrame Z) (acc : list (option Z)) (cs : list string)
  : option (list (option Z)) :=
  match cs with
  | [] => Some acc
  | c :: cs' => l ← numeric_column f c; add_columns f (zip_with nan_add acc l) cs'
  end.

Definition sum_columns (f : DataFrame Z) (cs : list string)
  : option (list (option Z)) :=
  match cs with
  | [] => None
  | c0 :: cs' => l0 ← numeric_column f c0; add_columns f l0 cs'
  end.

Fixpoint aggregate_groups (f : DataFrame Z) (groups : list (string * list string))
  : option (list (string * series)) :=
  match groups with
  | [] => Some []
  | (name, cs) :: groups' =>
      l ← sum_columns f cs;
      rest ← aggregate_groups f groups';
      Some ((name, Numeric l) :: rest)
  end.

(** The table of deltas per distribution, by the table of groups. *)
Definition aggregated (csv : DataFrame Z) : option (DataFrame Z) :=
  cols ← aggregate_groups (processed csv) group_definitions;
  Some (mkDataFrame (drop 1 (index csv)) cols).

(** [Series.sum()] of a column: NaN counts as 0. *)
Definition total (l : list (option Z)) : Z :=
  foldr (fun c acc => default 0 c + acc) 0 l.

(** The counter a raw column of the file holds, and how much a counter
    grew from its first reading to its last. *)
Definition counter (csv : DataFrame Z) (c : string) : list Z :=
  match lookup_column c (columns csv) with
  | Some (Numeric l) => default 0 <$> l
  | _ => []
  end.

Definition growth (vs : list Z) : Z := default 0 (last vs) - default 0 (head vs).

(** A column of [m] numbers. *)
Definition whole (m : nat) (l : list (option Z)) : Prop :=
  length l = m /\ Forall is_Some l.

(** Column [c] of [f] is [m] numbers that add up to [T c]. *)
Definition adds_up (f : DataFrame Z) (m : nat) (T : string -> Z) (c : string) : Prop :=
  exists l, numeric_column f c = Some l /\ whole m l /\ total l = T c.

(** Every column is numeric and has no NaN. *)
Definition clean (csv : DataFrame Z) : Prop :=
  Forall (fun c => exists vs, c.2 = Numeric (Some <$> vs)) (columns csv).

(** Every column has one cell per date. *)
Definition rectangular (csv : DataFrame Z) : Prop :=
  Forall (fun c => match c.2 with
                   | Numeric l => length l = length (index csv)
                   | Object l => length l = length (index csv)
                   end) (columns csv).

End DockerHubGroups.

Module DockerHubExamples.
Import PandasExamples.

(** The full file with one more counter, which no sum reads, and the full
    file with a column of text. *)
Definition extended_csv : DataFrame Z :=
  mkDataFrame three_days (("library/fedora", Numeric pulls) :: columns full_csv).

Definition annotated_csv : DataFrame Z :=
  mkDataFrame three_days
    (("notes", Object [Some "a"; Some "b"; Some "c"]) :: columns full_csv).

End DockerHubExamples.

Module FetcherFacts.
Import Fetcher FetcherExamples FetcherScenarios.

(** *** Names and walks *)

Lemma unsnoc_app names : forall init last,
  unsnoc names = Some (init, last) -> names = init ++ [last].
Proof.
  induction names as [|n names IH]; intros init last; simpl; [done|].
  destruct (unsnoc names) as [[i l]|] eqn:E.
  - intros [= <- <-]. simpl. f_equal. by apply IH.
  - intros [= <- <-]. destruct names as [|n' names]; [done|].
    simpl in E. by destruct (unsnoc names) as [[? ?]|].
Qed.

Lemma walk_app m names1 names2 : forall cur,
  walk m cur (names1 ++ names2)
    = match walk m cur names1 with
      | inr loc => walk m loc names2
      | inl e => inl e
      end.
Proof.
  induction names1 as [|n names1 IH]; intros cur; simpl; [done|].
  destruct (m !! cur) as [[t|t c]|]; [apply IH|done|done].
Qed.

Lemma step_plain cur name : plain name = true -> step cur name = name :: cur.
Proof.
  unfold plain, step. intros Hp. apply negb_true_iff in Hp.
  apply bool_decide_eq_false in Hp.
  rewrite !bool_decide_false; [done|tauto|tauto].
Qed.

Lemma walk_keeps m m' names :
  keeps_directories m m' ->
  forall cur loc, walk m cur names = inr loc -> walk m' cur names = inr loc.
Proof.
  intros Hk. induction names as [|n names IH]; intros cur loc; simpl; [done|].
  destruct (m !! cur) as [[t|t c]|] eqn:E; try done.
  destruct (Hk _ _ E) as [t' ->]. apply IH.
Qed.

Lemma keeps_directories_refl m : keeps_directories m m.
Proof. intros l t Hl. by exists t. Qed.

(** What [open] has found when it has found a place for the file. *)
Lemma creat_at_inr m cw p file :
  creat_at m cw p = inr file ->
  p <> ""
  /\ (forall t, m !! file <> Some (Dir t))
  /\ exists names name dir t,
       components p = names ++ [name] /\ plain name = true
       /\ file = name :: dir
       /\ walk m (start cw p) names = inr dir /\ m !! dir = Some (Dir t).
Proof.
  unfold creat_at, parent_at. case_decide as Hp; [done|].
  destruct (unsnoc (strip (components p))) as [[names name]|] eqn:Hu; [|done].
  destruct (walk m (start cw p) names) as [e|dir] eqn:Hw; [done|].
  destruct (m !! dir) as [[t|t c]|] eqn:Hdir; try done.
  destruct (plain name) eqn:Hplain; [|done]. simpl.
  unfold trailing_slash. case_bool_decide as Hs; [done|].
  rewrite Hs in Hu. apply unsnoc_app in Hu.
  destruct (m !! (name :: dir)) as [[t'|t' c']|] eqn:Hf; [done| |];
    intros [= <-]; (split; [done|]);
    (split; [intros t0; by rewrite Hf|]);
    by exists names, name, dir, t.
Qed.

Lemma creat_at_walk m m' cw p file :
  creat_at m cw p = inr file ->
  keeps_directories m m' ->
  walk m' (start cw p) (components p) = inr file.
Proof.
  intros Hc Hk.
  destruct (creat_at_inr m cw p file Hc)
    as (_ & _ & names & name & dir & t & -> & Hplain & -> & Hw & Hdir).
  rewrite walk_app, (walk_keeps m m' names Hk _ _ Hw). simpl.
  destruct (Hk _ _ Hdir) as [t' ->]. by rewrite step_plain.
Qed.

Lemma stat_at_creat m m' cw p file :
  creat_at m cw p = inr file ->
  keeps_directories m m' ->
  stat_at m' cw p = match m' !! file with
                    | Some e => inr e
                    | None => inl ENOENT
                    end.
Proof.
  intros Hc Hk. unfold stat_at.
  destruct (creat_at_inr m cw p file Hc) as (Hp & _).
  rewrite decide_False by done.
  by rewrite (creat_at_walk m m' cw p file Hc Hk).
Qed.

(** What is there stays there when directories and entries are kept. *)
Lemma stat_at_keeps m m' cw p e :
  keeps_directories m m' -> keeps_entries m m' ->
  stat_at m cw p = inr e -> exists e', stat_at m' cw p = inr e'.
Proof.
  intros Hd He. unfold stat_at. case_decide; [done|].
  destruct (walk m (start cw p) (components p)) as [err|loc] eqn:Hw; [done|].
  rewrite (walk_keeps m m' _ Hd _ _ Hw).
  destruct (m !! loc) as [e0|] eqn:Hl; [|done]. intros _.
  destruct (He loc) as [e' ->]; [by eexists|]. by exists e'.
Qed.

(** *** The depth of [makedirs] *)

Lemma length_string_of_list l :
  String.length (string_of_list_ascii l) = length l.
Proof. induction l as [|c l IH]; simpl; [done|]. by rewrite IH. Qed.

Lemma length_list_of_string s :
  length (list_ascii_of_string s) = String.length s.
Proof. induction s as [|c s IH]; simpl; [done|]. by rewrite IH. Qed.

Lemma length_take_drop_name l :
  (length (take_name l) + length (drop_name l) = length l)%nat.
Proof.
  induction l as [|c l IH]; simpl; [done|].
  destruct (is_sep c); simpl; lia.
Qed.

Lemma length_drop_seps l : (length (drop_seps l) <= length l)%nat.
Proof.
  induction l as [|c l IH]; simpl; [done|].
  destruct (is_sep c); simpl; lia.
Qed.

Lemma path_split_length p h t :
  path_split p = (h, t) ->
  (String.length h + String.length t <= String.length p)%nat.
Proof.
  unfold path_split. intros [= <- <-].
  rewrite !length_string_of_list, !length_rev.
  pose proof (length_take_drop_name (rev (list_ascii_of_string p))) as Hl.
  rewrite length_rev, length_list_of_string in Hl.
  pose proof (length_drop_seps (drop_name (rev (list_ascii_of_string p)))).
  destruct (forallb _ _); lia.
Qed.

(** The call [makedirs] makes of itself is on a shorter name. *)
Lemma makedirs_body_ext (rec rec' : string -> M world unit) name w :
  (forall head w', (String.length head < String.length name)%nat ->
                   rec head w' = rec' head w') ->
  makedirs_body rec name w = makedirs_body rec' name w.
Proof.
  intros Hrec. unfold makedirs_body.
  destruct (path_split name) as [h1 t1] eqn:E1.
  apply path_split_length in E1.
  assert (exists h t,
    (if decide (t1 = "") then path_split h1 else (h1, t1)) = (h, t)
    /\ (t <> "" -> String.length h < String.length name)%nat)
    as (h & t & -> & Hshort).
  { case_decide as Ht1.
    - destruct (path_split h1) as [h t] eqn:E2.
      apply path_split_length in E2. exists h, t. split; [done|].
      intros Ht. destruct t; [done|]. simpl in *. lia.
    - exists h1, t1. split; [done|].
      intros _. destruct t1; [done|]. simpl in *. lia. }
  unfold bind.
  destruct (negb (bool_decide (h = "")) && negb (bool_decide (t = ""))) eqn:Hc;
    [|done].
  apply andb_true_iff in Hc as [_ Ht].
  apply negb_true_iff, bool_decide_eq_false in Ht.
  unfold path_exists, gets, ret. cbv beta iota zeta.
  destruct (negb (found w h)); [|done].
  unfold try_except. by rewrite Hrec by auto.
Qed.

Lemma makedirs_from_S depth : forall name w,
  (String.length name < depth)%nat ->
  makedirs_from (S depth) name w = makedirs_from depth name w.
Proof.
  induction depth as [|depth IH]; intros name w Hlen; [lia|].
  change (makedirs_body (makedirs_from (S depth)) name w
          = makedirs_body (makedirs_from depth) name w).
  apply makedirs_body_ext. intros head w' Hhead. apply IH. lia.
Qed.

(** [makedirs] never runs out of depth: more of it changes nothing. *)
Lemma makedirs_from_enough depth name w :
  (String.length name < depth)%nat ->
  makedirs_from depth name w = makedirs name w.
Proof.
  unfold makedirs. induction depth as [|depth IH]; intros Hlen; [lia|].
  destruct (decide (String.length name = depth)) as [->|Hne]; [done|].
  rewrite makedirs_from_S by lia. apply IH. lia.
Qed.

(** *** A file is written *)

Lemma written_keeps_directories file body w :
  (forall t, fs w !! file <> Some (Dir t)) ->
  keeps_directories (fs w) (written file body w).
Proof.
  intros Hnd l t Hl. unfold written, add_entry.
  assert (l <> file) as Hne by (intros ->; by apply (Hnd t)).
  destruct (fs w !! file).
  - exists t. by rewrite lookup_insert_ne.
  - rewrite lookup_insert_ne by done.
    destruct (decide (tail file = l)) as [->|Hne'].
    + rewrite lookup_insert_eq. by eexists.
    + exists t. by rewrite lookup_insert_ne.
Qed.

Lemma written_keeps_entries file body w :
  keeps_entries (fs w) (written file body w).
Proof.
  intros l Hl. unfold written, add_entry.
  destruct (fs w !! file) eqn:Hf.
  - destruct (decide (file = l)) as [->|Hne].
    + rewrite lookup_insert_eq. by eexists.
    + by rewrite lookup_insert_ne.
  - destruct (decide (file = l)) as [->|Hne].
    + rewrite lookup_insert_eq. by eexists.
    + rewrite lookup_insert_ne by done.
      destruct (decide (tail file = l)) as [->|Hne'].
      * rewrite lookup_insert_eq. by eexists.
      * by rewrite lookup_insert_ne.
Qed.

Lemma written_lookup file body w :
  written file body w !! file = Some (File (now w) body).
Proof.
  unfold written, add_entry. destruct (fs w !! file); by rewrite lookup_insert_eq.
Qed.

Lemma written_lookup_ne file body w l :
  file <> l -> tail file <> l -> written file body w !! l = fs w !! l.
Proof.
  intros Hf Hd. unfold written, add_entry.
  destruct (fs w !! file); by rewrite ?lookup_insert_ne by done.
Qed.

Lemma stat_at_written w p file body :
  creat w p = inr file ->
  stat_at (written file body w) (cwd w) p = inr (File (now w) body).
Proof.
  intros Hc.
  destruct (creat_at_inr _ _ _ _ Hc) as (_ & Hnd & _).
  rewrite (stat_at_creat (fs w) _ (cwd w) p file Hc)
    by by apply written_keeps_directories.
  by rewrite written_lookup.
Qed.

(** The chunk loop appends every chunk to the open file. *)
Lemma write_chunks_world file cs : forall m cw t net rq pb out c0,
  for_each cs (fun data =>
    size <- file_write file data ;; progress_update size)%py
    (World (<[file := File t c0]> m) cw t net rq pb out)
  = (inr tt,
     World (<[file := File t (c0 ++ concat cs)]> m) cw t net rq
           (pb ++ sizes cs) out).
Proof.
  induction cs as [|data cs IH]; intros m cw t net rq pb out c0; simpl.
  - unfold ret, sizes. simpl. by rewrite !app_nil_r.
  - unfold bind at 1 2, file_write, progress_update, modify, set_fs. simpl.
    rewrite alter_insert_eq. rewrite IH.
    unfold sizes. simpl. by rewrite <- !app_assoc.
Qed.

(** *** The two functions, case by case *)

Lemma download_run url p f w :
  _download_with_progress url p f w =
    match remote w url with
    | Unreachable => (inl ConnectionError, asked url w)
    | Answers r =>
        match content_length r with
        | NotAnInteger _ => (inl ValueError, asked url w)
        | _ =>
            match creat w p with
            | inl e => (inl (os_error e p), asked url w)
            | inr file =>
                (if complete r then inr tt else inl ChunkedEncodingError,
                 World (written file (concat (chunks r)) w) (cwd w) (now w)
                       (remote w) (requested w ++ [url])
                       (progress_bar w ++ sizes (chunks r))
                       (stdout w ++ if complete r
                                    then [DownloadedSuccessfully f] else []))
            end
        end
    end.
Proof.
  destruct w as [m cw t net rq pb out].
  unfold _download_with_progress, bind at 1, requests_get. simpl.
  destruct (net url) as [|r]; [done|].
  assert (Hopen :
    (file <- open_wb p ;;
     for_each (chunks r) (fun data =>
       size <- file_write file data ;; progress_update size) ;;;
     (if complete r then ret tt else raise ChunkedEncodingError) ;;;
     print (DownloadedSuccessfully f))%py
      (World m cw t net (rq ++ [url]) pb out)
    = match creat_at m cw p with
      | inl e => (inl (os_error e p), World m cw t net (rq ++ [url]) pb out)
      | inr file =>
          (if complete r then inr tt else inl ChunkedEncodingError,
           World (written file (concat (chunks r)) (World m cw t net rq pb out))
                 cw t net (rq ++ [url]) (pb ++ sizes (chunks r))
                 (out ++ if complete r then [DownloadedSuccessfully f] else []))
      end).
  { unfold bind at 1, open_wb, creat. simpl.
    destruct (creat_at m cw p) as [e|file]; [done|].
    unfold bind at 1, set_fs, written, add_entry. simpl.
    destruct (m !! file); rewrite write_chunks_world; simpl;
      unfold bind, raise, ret, print, modify;
      destruct (complete r); simpl; by rewrite ?app_nil_r. }
  unfold creat. simpl.
  destruct (content_length r) as [|n|text];
    unfold bind at 1, int_of_header, ret, raise; [exact Hopen|exact Hopen|done].
Qed.

Lemma announced_download msg url p f w :
  (print msg ;;; _download_with_progress url p f)%py w =
    let said out := World (fs w) (cwd w) (now w) (remote w)
                          (requested w ++ [url]) (progress_bar w) out in
    match remote w url with
    | Unreachable => (inl ConnectionError, said (stdout w ++ [msg]))
    | Answers r =>
        match content_length r with
        | NotAnInteger _ => (inl ValueError, said (stdout w ++ [msg]))
        | _ =>
            match creat w p with
            | inl e => (inl (os_error e p), said (stdout w ++ [msg]))
            | inr file =>
                (if complete r then inr tt else inl ChunkedEncodingError,
                 World (written file (concat (chunks r)) w) (cwd w) (now w)
                       (remote w) (requested w ++ [url])
                       (progress_bar w ++ sizes (chunks r))
                       ((stdout w ++ [msg])
                          ++ if complete r
                             then [DownloadedSuccessfully f] else []))
            end
        end
    end.
Proof.
  unfold bind, print, modify. rewrite download_run.
  destruct w as [m cw t net rq pb out]. unfold creat, asked. simpl.
  destruct (net url) as [|r]; [done|].
  destruct (content_length r); try done;
    by destruct (creat_at m cw p).
Qed.

(** The second half of [download_file]: the cache file is looked at. *)
Lemma check_cache_run url p f w :
  (file_exists <- path_exists p ;;
   if file_exists then
     file_datetime <- getmtime p ;;
     current_datetime <- gets now ;;
     if bool_decide (current_datetime - file_datetime
                     > timedelta_days Config.CACHE_DAYS)
     then print (OlderThanCacheDays f) ;;; _download_with_progress url p f
     else print (UpToDate f)
   else
     print (DoesNotExist f) ;;; _download_with_progress url p f)%py w
  = match stat w p with
    | inr e =>
        if bool_decide (now w - mtime_of e > timedelta_days Config.CACHE_DAYS)
        then (print (OlderThanCacheDays f) ;;;
              _download_with_progress url p f)%py w
        else print (UpToDate f) w
    | inl _ =>
        (print (DoesNotExist f) ;;; _download_with_progress url p f)%py w
    end.
Proof.
  unfold bind at 1, path_exists, gets. unfold found, getmtime.
  destruct (stat w p) as [err|e] eqn:Hs; [done|].
  unfold bind at 1. rewrite Hs. unfold bind at 1, gets.
  by destruct (bool_decide _).
Qed.

Lemma download_file_found url d f w :
  found w d = true ->
  download_file url d f w =
    match stat w (path_join d f) with
    | inr e =>
        if bool_decide (now w - mtime_of e > timedelta_days Config.CACHE_DAYS)
        then (print (OlderThanCacheDays f) ;;;
              _download_with_progress url (path_join d f) f)%py w
        else print (UpToDate f) w
    | inl _ =>
        (print (DoesNotExist f) ;;;
         _download_with_progress url (path_join d f) f)%py w
    end.
Proof.
  intros Hd. unfold download_file, bind at 1, path_exists, gets. rewrite Hd.
  simpl. unfold bind at 1, ret. apply check_cache_run.
Qed.

Lemma stat_same w w' p :
  fs w' = fs w -> cwd w' = cwd w -> stat w' p = stat w p.
Proof. unfold stat. by intros -> ->. Qed.

(** C1, as the code has it: when the endpoint cannot be reached and the
    cache file is older than [CACHE_DAYS], in a directory that exists,
    [download_file] raises the [ConnectionError] of [requests.get]; the
    file system is as it was, and the cache file keeps its content and its
    modification time. *)
Theorem download_unreachable_keeps_cache url d f w m c :
  found w d = true ->
  stat w (path_join d f) = inr (File m c) ->
  now w - m > timedelta_days Config.CACHE_DAYS ->
  remote w url = Unreachable ->
  (download_file url d f w).1 = inl ConnectionError
  /\ fs (download_file url d f w).2 = fs w
  /\ stat (download_file url d f w).2 (path_join d f) = inr (File m c).
Proof.
  intros Hd Hp Hold Hu. rewrite download_file_found by done.
  rewrite Hp. simpl. rewrite bool_decide_true by done.
  rewrite announced_download. cbv zeta. rewrite Hu. simpl.
  split; [done|]. split; [done|]. by rewrite <- Hp.
Qed.

Lemma download_unreachable_keeps_cache_witness :
  (download_file "u" "data/" "epel.csv" (cached (timedelta_days 8) Unreachable)).1
    = inl ConnectionError
  /\ stat (download_file "u" "data/" "epel.csv"
             (cached (timedelta_days 8) Unreachable)).2
          (path_join "data/" "epel.csv") = inr (File 0 csv_bytes).
Proof.
  destruct (download_unreachable_keeps_cache
              "u" "data/" "epel.csv" (cached (timedelta_days 8) Unreachable)
              0 csv_bytes) as (Hres & _ & Hstat);
    [reflexivity|reflexivity|reflexivity|reflexivity|].
  by split.
Defined.

(** C1 fails for an HTTP error status: a cache file older than
    [CACHE_DAYS] and a server that answers 500.  [download_file] returns
    normally, and the body of the error response is what the cache file
    now holds. *)
Lemma download_error_status_replaces_cache :
  stat (cached (timedelta_days 8) (Answers server_error)) "data/epel.csv"
    = inr (File 0 csv_bytes)
  /\ status_code server_error = 500
  /\ (download_file "u" "data/" "epel.csv"
        (cached (timedelta_days 8) (Answers server_error))).1 = inr tt
  /\ stat (download_file "u" "data/" "epel.csv"
             (cached (timedelta_days 8) (Answers server_error))).2
          "data/epel.csv" = inr (File (timedelta_days 8) error_page)
  /\ error_page <> csv_bytes.
Proof. repeat split; try reflexivity. discriminate. Qed.

(** C4: in a directory that exists, a cache file whose age is exactly
    [CACHE_DAYS] days is kept and nothing is requested; so it is at any age
    up to [CACHE_DAYS] days, and the URL is requested exactly when the age
    is strictly greater. *)
Theorem cache_boundary_inclusive url d f w e :
  found w d = true ->
  stat w (path_join d f) = inr e ->
  let out := download_file url d f w in
  (now w - mtime_of e = 7 * 86400 * 1000000 ->
     out.1 = inr tt /\ requested out.2 = requested w
     /\ fs out.2 = fs w /\ stat out.2 (path_join d f) = inr e)
  /\ (now w - mtime_of e <= timedelta_days Config.CACHE_DAYS ->
     out.1 = inr tt /\ requested out.2 = requested w
     /\ fs out.2 = fs w /\ stat out.2 (path_join d f) = inr e)
  /\ (now w - mtime_of e > timedelta_days Config.CACHE_DAYS ->
     requested out.2 = requested w ++ [url]).
Proof.
  intros Hd Hp out.
  assert (Hfresh : now w - mtime_of e <= timedelta_days Config.CACHE_DAYS ->
     out.1 = inr tt /\ requested out.2 = requested w
     /\ fs out.2 = fs w /\ stat out.2 (path_join d f) = inr e).
  { intros Hle. subst out. rewrite download_file_found by done.
    rewrite Hp. simpl. rewrite bool_decide_false by lia. simpl.
    by repeat split. }
  split; [|split]; [|done|].
  - intros Heq. apply Hfresh. unfold timedelta_days, Config.CACHE_DAYS. lia.
  - intros Hgt. subst out. rewrite download_file_found by done.
    rewrite Hp. simpl. rewrite bool_decide_true by done.
    rewrite announced_download. cbv zeta.
    destruct (remote w url) as [|r]; [done|].
    destruct (content_length r); try done;
      by destruct (creat w (path_join d f)).
Qed.

Lemma cache_boundary_inclusive_witness :
  let out := download_file "u" "data/" "epel.csv"
               (cached (7 * 86400 * 1000000) Unreachable) in
  (out.1 = inr tt /\ requested out.2 = []
   /\ fs out.2 = fs (cached (7 * 86400 * 1000000) Unreachable)
   /\ stat out.2 "data/epel.csv" = inr (File 0 csv_bytes)).
Proof.
  apply (cache_boundary_inclusive "u" "data/" "epel.csv"
           (cached (7 * 86400 * 1000000) Unreachable) (File 0 csv_bytes));
    reflexivity.
Defined.

End FetcherFacts.

Module StoreFacts.

Lemma alloc_lookup_new {F} (h : store F) (f : F) : (h ++ [f]) !! length h = Some f.
Proof. by rewrite list_lookup_middle. Qed.

Lemma alloc_lookup_old {F} (h : store F) (f g : F) r :
  h !! r = Some g -> (h ++ [f]) !! r = Some g.
Proof. intros Hr. by rewrite lookup_app_l by (by eapply lookup_lt_Some). Qed.

Lemma deref_run {F} (h : store F) r f : h !! r = Some f -> deref r h = (inr f, h).
Proof. intros Hr. unfold deref. by rewrite Hr. Qed.

End StoreFacts.

Module EpelFacts.
Import Epel EpelExamples StoreFacts.

Lemma getitem_mask_run h df f (mask : RawUsageRow -> Prop)
    `{!forall r, Decision (mask r)} :
  h !! df = Some f ->
  getitem_mask df mask h
    = (inr (length h), h ++ [filter (fun ir => mask ir.2) f]).
Proof.
  intros Hdf. unfold getitem_mask, bind. by rewrite (deref_run h df f).
Qed.

Lemma getitem_mask_returned h df f (mask : RawUsageRow -> Prop)
    `{!forall r, Decision (mask r)} :
  h !! df = Some f ->
  returned (getitem_mask df mask h) = Some (filter (fun ir => mask ir.2) f).
Proof.
  intros Hdf. rewrite (getitem_mask_run h df f) by done.
  unfold returned. simpl. apply alloc_lookup_new.
Qed.

Lemma getitem_mask_subsequence h df f (mask : RawUsageRow -> Prop)
    `{!forall r, Decision (mask r)} :
  h !! df = Some f ->
  returns_subsequence df f (getitem_mask df mask h).
Proof.
  intros Hdf. rewrite (getitem_mask_run h df f) by done.
  eexists _, _. simpl. split; [done|]. split; [apply alloc_lookup_new|].
  split; [apply sublist_filter|]. by apply alloc_lookup_old.
Qed.

(** C7: [filter_by_system_age] keeps exactly the rows with [sys_age > 1]
    for ['longterm'], exactly those with [sys_age == 1] for ['ephemeral'],
    exactly those with [sys_age > n] for an integer [n] (a [bool] is an
    [int] in Python), and for any other argument it returns the very frame
    it was given and touches nothing. *)
Theorem filter_by_system_age_buckets h df f :
  h !! df = Some f ->
  returned (filter_by_system_age df (PyStr "longterm") h)
    = Some (filter (fun ir => sys_age ir.2 > 1) f)
  /\ returned (filter_by_system_age df (PyStr "ephemeral") h)
    = Some (filter (fun ir => sys_age ir.2 = 1) f)
  /\ (forall v n, as_int v = Some n ->
        returned (filter_by_system_age df v h)
          = Some (filter (fun ir => sys_age ir.2 > n) f))
  /\ (forall v, v <> PyStr "longterm" -> v <> PyStr "ephemeral" ->
                as_int v = None ->
                filter_by_system_age df v h = (inr df, h)).
Proof.
  intros Hdf. repeat split.
  - by apply getitem_mask_returned.
  - by apply getitem_mask_returned.
  - intros v n Hv. unfold filter_by_system_age.
    rewrite !decide_False by (by destruct v). rewrite Hv.
    by apply getitem_mask_returned.
  - intros v H1 H2 Hv. unfold filter_by_system_age.
    rewrite !decide_False by done. by rewrite Hv.
Qed.

Lemma filter_by_system_age_buckets_witness :
  returned (filter_by_system_age 0%nat (PyStr "longterm") [read_csv epel_csv])
    = Some (filter (fun ir => sys_age ir.2 > 1) (read_csv epel_csv)).
Proof.
  apply (proj1 (filter_by_system_age_buckets
                  [read_csv epel_csv] 0%nat (read_csv epel_csv) eq_refl)).
Defined.

(** C8: [filter_valid_rocky_versions] keeps exactly the rows whose
    [os_version] is in [VALID_ROCKY_VERSIONS]; a row of version 9.7 is
    excluded and a row of version 9.6 is kept. *)
Theorem filter_valid_rocky_versions_whitelist h df f :
  h !! df = Some f ->
  returned (filter_valid_rocky_versions df h)
    = Some (filter (fun ir => os_version ir.2 ∈ Config.VALID_ROCKY_VERSIONS) f)
  /\ (forall ir out, returned (filter_valid_rocky_versions df h) = Some out ->
        ir ∈ f -> os_version ir.2 = "9.7" -> ir ∉ out)
  /\ (forall ir out, returned (filter_valid_rocky_versions df h) = Some out ->
        ir ∈ f -> os_version ir.2 = "9.6" -> ir ∈ out).
Proof.
  intros Hdf.
  assert (Hret : returned (filter_valid_rocky_versions df h)
    = Some (filter (fun ir => os_version ir.2 ∈ Config.VALID_ROCKY_VERSIONS) f))
    by by apply getitem_mask_returned.
  split; [done|]. rewrite Hret.
  split; intros ir out [= <-] Hin Hv; rewrite list_elem_of_filter, Hv.
  - intros [Hbad _]. revert Hbad.
    apply (bool_decide_unpack _). vm_compute. exact I.
  - split; [|done]. apply (bool_decide_unpack _). vm_compute. exact I.
Qed.

Lemma filter_valid_rocky_versions_whitelist_witness :
  returned (filter_valid_rocky_versions 0%nat [read_csv epel_csv])
    = Some (filter (fun ir => os_version ir.2 ∈ Config.VALID_ROCKY_VERSIONS)
                   (read_csv epel_csv)).
Proof.
  apply (proj1 (filter_valid_rocky_versions_whitelist
                  [read_csv epel_csv] 0%nat (read_csv epel_csv) eq_refl)).
Defined.

(** C9: each of the six row filters returns a frame whose labelled rows
    are a subsequence of the rows of its input (same rows, same fields,
    same order), and leaves the input frame as it was. *)
Theorem row_filters_return_subsequence h df f :
  h !! df = Some f ->
  (forall start_date col,
     returns_subsequence df f (filter_by_date df start_date col h))
  /\ (forall age_condition,
     returns_subsequence df f (filter_by_system_age df age_condition h))
  /\ (forall tag, returns_subsequence df f (filter_by_repo_tag df tag h))
  /\ (forall name, returns_subsequence df f (filter_by_os_name df name h))
  /\ (forall arch_filter,
     returns_subsequence df f (filter_by_arch df arch_filter h))
  /\ returns_subsequence df f (filter_valid_rocky_versions df h).
Proof.
  intros Hdf. repeat split; intros.
  - by apply getitem_mask_subsequence.
  - unfold filter_by_system_age.
    repeat case_decide; try by apply getitem_mask_subsequence.
    destruct (as_int age_condition); [by apply getitem_mask_subsequence|].
    by exists df, f.
  - by apply getitem_mask_subsequence.
  - by apply getitem_mask_subsequence.
  - unfold filter_by_arch. case_decide; by apply getitem_mask_subsequence.
  - by apply getitem_mask_subsequence.
Qed.

Lemma row_filters_return_subsequence_witness :
  returns_subsequence 0%nat (read_csv epel_csv)
    (filter_valid_rocky_versions 0%nat [read_csv epel_csv]).
Proof.
  apply (row_filters_return_subsequence
           [read_csv epel_csv] 0%nat (read_csv epel_csv) eq_refl).
Defined.


Lemma filter_ext_in {A} (P Q : A -> Prop)
    `{!forall x, Decision (P x), !forall x, Decision (Q x)} (l : list A) :
  (forall x, x ∈ l -> P x <-> Q x) -> filter P l = filter Q l.
Proof.
  induction l as [|x l IH]; intros Hext; [done|].
  rewrite !filter_cons.
  rewrite IH by (intros y Hy; apply Hext; by right).
  apply decide_ext, Hext. by left.
Qed.

Lemma filter_all {A} (P : A -> Prop) `{!forall x, Decision (P x)} (l : list A) :
  (forall x, P x) -> filter P l = l.
Proof.
  intros HP. induction l as [|x l IH]; [done|].
  by rewrite filter_cons_True, IH.
Qed.

Lemma unique_label (f : Frame) i r1 r2 :
  NoDup (frame_index f) -> (i, r1) ∈ f -> (i, r2) ∈ f -> r1 = r2.
Proof.
  unfold frame_index. induction f as [|[j r] f IH]; intros Hnd H1 H2.
  - by apply elem_of_nil in H1.
  - rewrite fmap_cons in Hnd. apply NoDup_cons in Hnd as [Hj Hnd].
    apply elem_of_cons in H1 as [[= -> ->]|H1];
      apply elem_of_cons in H2 as [[= ?]|H2]; subst; try done.
    + destruct Hj. by apply (list_elem_of_fmap_2 fst) in H2.
    + destruct Hj. by apply (list_elem_of_fmap_2 fst) in H1.
    + by apply IH.
Qed.

(** With labels that identify rows, dropping the labels of the selected
    rows drops the selected rows and nothing else. *)
Lemma drop_selected (f : Frame) (P : RawUsageRow -> Prop)
    `{!forall r, Decision (P r)} :
  NoDup (frame_index f) ->
  filter (fun ir => ir.1 ∉ frame_index (filter (fun ir => P ir.2) f)) f
    = filter (fun ir => ~ P ir.2) f.
Proof.
  intros Hnd. apply filter_ext_in. intros [i r] Hir. simpl.
  split; intros Hn HP; apply Hn.
  - apply (list_elem_of_fmap_2' fst _ (i, r)); [|done].
    by apply list_elem_of_filter.
  - apply list_elem_of_fmap in HP as ([i' r'] & Hi & Hin). simpl in Hi. subst i'.
    apply list_elem_of_filter in Hin as [HP' Hin]. simpl in HP'.
    by rewrite (unique_label f i r r' Hnd Hir Hin).
Qed.

Lemma drop_run h df f labels :
  h !! df = Some f ->
  Forall (fun i => i ∈ frame_index f) labels ->
  drop df labels h = (inr (length h), h ++ [filter (fun ir => ir.1 ∉ labels) f]).
Proof.
  intros Hdf Hl. unfold drop, bind. rewrite (deref_run h df f) by done.
  by rewrite bool_decide_true.
Qed.

Lemma index_sublist (f f' : Frame) :
  sublist f' f -> NoDup (frame_index f) -> NoDup (frame_index f').
Proof.
  intros Hs Hnd. eapply sublist_NoDup; [done|]. unfold frame_index. by f_equiv.
Qed.

(** The loop over the error dates. *)
Lemma remove_data_errors dates : forall h df f,
  h !! df = Some f -> NoDup (frame_index f) ->
  exists r h',
    for_fold dates df (fun error_date df =>
      hit <- getitem_mask df (eq_date error_date) ;;
      labels <- get_index hit ;;
      drop df labels)%py h = (inr r, h')
    /\ h' !! r = Some (filter (fun ir =>
                   week_end ir.2 ∉ omap Timestamp.to_datetime dates) f).
Proof.
  induction dates as [|d ds IH]; intros h df f Hdf Hnd; simpl.
  - exists df, h. split; [done|]. rewrite Hdf. f_equal.
    symmetry. apply filter_all. intros ir. apply not_elem_of_nil.
  - unfold bind at 1 2.
    rewrite (getitem_mask_run h df f) by done.
    set (hit := filter _ f). unfold bind at 1, get_index, bind at 1.
    rewrite (deref_run _ (length h) hit) by apply alloc_lookup_new.
    unfold ret. rewrite (drop_run _ df f) by
      (by apply alloc_lookup_old
       || (apply Forall_forall; intros i Hi; eapply elem_of_sublist; [exact Hi|];
            unfold frame_index; f_equiv; apply sublist_filter)).
    subst hit. rewrite drop_selected by done.
    match goal with
    | |- context [for_fold ds ?r _ ?s] =>
        destruct (IH s r (filter (fun ir => ~ eq_date d ir.2) f))
          as (r' & h' & Hrun & Hr)
    end.
    { apply alloc_lookup_new. }
    { eapply index_sublist; [apply sublist_filter|done]. }
    exists r', h'. split; [done|]. rewrite Hr. f_equal.
    etrans; [apply list_filter_filter|]. apply list_filter_iff.
    intros [i row]. simpl. unfold eq_date.
    destruct (Timestamp.to_datetime d) as [t|]; simpl.
    + rewrite not_elem_of_cons. split.
      * intros [? Hne]. split; [|done]. intros Heq. apply Hne. by rewrite Heq.
      * intros [Hne ?]. split; [done|]. intros Heq. apply Hne. congruence.
    + split; [by intros [? _]|by intros ?; split].
Qed.

(** C6: of the rows of the configured repositories, [load_epel_data]
    removes exactly those whose [week_end] is the timestamp of one of the
    [ERROR_DATES], whatever their other fields hold, and keeps every other
    row in its place. *)
Theorem load_epel_data_drops_error_dates csv h :
  returned (load_epel_data csv h)
    = Some (filter (fun ir => week_end ir.2 ∉ error_timestamps)
              (filter (fun ir => repo_tag ir.2 ∈ Config.EPEL_REPOS)
                 (read_csv csv)))
  /\ error_timestamps
     = [Timestamp.of_date 2023 5 7; Timestamp.of_date 2023 5 14;
        Timestamp.of_date 2023 10 29; Timestamp.of_date 2023 11 5].
Proof.
  split; [|reflexivity].
  unfold load_epel_data, bind at 1, alloc. unfold bind at 1.
  rewrite (getitem_mask_run _ (length h) (read_csv csv))
    by apply alloc_lookup_new.
  set (f0 := filter _ (read_csv csv)). set (h0 := _ ++ [f0]).
  destruct (remove_data_errors Config.ERROR_DATES h0
              (length (h ++ [read_csv csv])) f0) as (r & h' & Hrun & Hr).
  { apply alloc_lookup_new. }
  { eapply index_sublist; [apply sublist_filter|].
    unfold frame_index, read_csv. rewrite fst_zip by (by rewrite length_seq).
    apply NoDup_seq. }
  unfold bind at 1. rewrite Hrun. unfold returned, ret. simpl. exact Hr.
Qed.

End EpelFacts.

Module TableBuilderFacts.
Import TableBuilder PandasExamples StoreFacts.

Section AddTotal.
Context {I : Type}.
Implicit Types (f : DataFrame I) (h : store (DataFrame I)).

Lemma cell_sum_axis1 (cols : list (string * series)) (n i : nat) :
  (i < n)%nat ->
  cell ((fun i => Some (row_sum cols i)) <$> seq 0 n) i = row_sum cols i.
Proof.
  intros Hi. unfold cell. rewrite list_lookup_fmap.
  by rewrite (proj2 (lookup_seq 0 n i i)).
Qed.

Lemma lookup_set_column name s cols :
  lookup_column name (set_column name s cols) = Some s.
Proof.
  induction cols as [|[n c] cols IH]; simpl.
  - by rewrite decide_True.
  - case_decide; simpl; [by rewrite decide_True|]. by rewrite decide_False.
Qed.

Lemma filter_other_columns name (cols : list (string * series)) :
  name ∉ cols.*1 -> filter (fun c => c.1 <> name) cols = cols.
Proof.
  induction cols as [|[n c] cols IH]; [done|].
  rewrite fmap_cons, not_elem_of_cons. intros [Hne Hnin].
  rewrite filter_cons_True by (simpl; intros Heq; by apply Hne). by rewrite IH.
Qed.

(** The row sums once column [name] holds [t]: the other columns, plus [t]. *)
Lemma row_sum_set_column name t cols i :
  NoDup cols.*1 ->
  row_sum (set_column name (Numeric t) cols) i
    = row_sum (filter (fun c => c.1 <> name) cols) i + cell t i.
Proof.
  induction cols as [|[n c] cols IH]; intros Hnd; simpl.
  - unfold row_sum. simpl. lia.
  - rewrite fmap_cons in Hnd. apply NoDup_cons in Hnd as [Hn Hnd].
    case_decide as Hname.
    + subst n. rewrite filter_cons_False by (simpl; tauto).
      rewrite filter_other_columns by done.
      unfold row_sum. simpl. lia.
    + rewrite filter_cons_True by done.
      unfold row_sum in *. simpl. rewrite IH by done. destruct c; lia.
Qed.

Lemma add_total_column_run h df f :
  h !! df = Some f ->
  add_total_column df h
    = (inr (length h),
       h ++ [mkDataFrame (index f)
               (set_column "total" (sum_axis1 f) (columns f))]).
Proof.
  intros Hdf. unfold add_total_column, copy, bind at 1, bind at 1.
  rewrite (deref_run h df f) by done. unfold alloc.
  unfold bind at 1, bind at 1.
  rewrite (deref_run _ (length h) f) by apply alloc_lookup_new.
  unfold ret, bind, setitem, update. rewrite alloc_lookup_new.
  f_equal. replace (length h) with (length h + 0)%nat at 1 by lia.
  by rewrite insert_app_r.
Qed.


(** What a second call computes: it sums every numeric column again, the
    [total] of the first call among them.  Row by row its total is the
    first one plus the sum of the other numeric columns; on a table that
    had no [total] column that is twice the first one. *)
Lemma add_total_twice_sums_total h df f :
  h !! df = Some f ->
  NoDup (columns f).*1 ->
  exists f1 f2,
    returned (add_total_column df h) = Some f1
    /\ returned ((r <- add_total_column df ;; add_total_column r)%py h) = Some f2
    /\ lookup_column "total" (columns f1)
       = Some (Numeric ((fun i => Some (row_sum (columns f) i))
                          <$> seq 0 (length (index f))))
    /\ lookup_column "total" (columns f2)
       = Some (Numeric ((fun i =>
                 Some (row_sum (columns f) i
                       + row_sum (filter (fun c => c.1 <> "total") (columns f)) i))
                          <$> seq 0 (length (index f))))
    /\ ("total" ∉ (columns f).*1 ->
        lookup_column "total" (columns f2)
        = Some (Numeric ((fun i => Some (2 * row_sum (columns f) i))
                           <$> seq 0 (length (index f))))).
Proof.
  intros Hdf Hnd.
  set (f1 := mkDataFrame (index f) (set_column "total" (sum_axis1 f) (columns f))).
  set (f2 := mkDataFrame (index f1) (set_column "total" (sum_axis1 f1) (columns f1))).
  assert (Htwice : lookup_column "total" (columns f2)
       = Some (Numeric ((fun i =>
                 Some (row_sum (columns f) i
                       + row_sum (filter (fun c => c.1 <> "total") (columns f)) i))
                          <$> seq 0 (length (index f))))).
  { subst f2 f1. cbn [columns index]. rewrite lookup_set_column.
    unfold sum_axis1. cbn [columns index].
    do 2 f_equal. apply list_fmap_ext. intros k i Hk.
    apply lookup_seq in Hk as [-> Hk]. cbn [Nat.add].
    rewrite row_sum_set_column by done.
    rewrite cell_sum_axis1 by done. f_equal. lia. }
  exists f1, f2. repeat split.
  - rewrite (add_total_column_run h df f) by done.
    unfold returned. simpl. apply alloc_lookup_new.
  - unfold bind. rewrite (add_total_column_run h df f) by done.
    rewrite (add_total_column_run _ (length h) f1) by apply alloc_lookup_new.
    unfold returned. simpl. apply alloc_lookup_new.
  - subst f1. simpl. by rewrite lookup_set_column.
  - done.
  - intros Hnew. rewrite Htwice. do 2 f_equal.
    apply list_fmap_ext. intros k i _.
    rewrite filter_other_columns by done. f_equal. lia.
Qed.

End AddTotal.

(** C2: [add_total_column] on the pivot table of two distributions, and
    again on its result.  The totals of the first call are 11 and 22; the
    second call counts them in and returns 22 and 44.  Nothing in
    [add_total_column] looks for a [total] column that is already there,
    as the sums of [plot_utils.py] do before they add one. *)
Lemma add_total_not_idempotent :
  exists f1 f2,
    returned (add_total_column 0%nat [hits_table]) = Some f1
    /\ returned ((r <- add_total_column 0%nat ;; add_total_column r)%py [hits_table])
       = Some f2
    /\ lookup_column "total" (columns f1) = Some (Numeric [Some 11; Some 22])
    /\ lookup_column "total" (columns f2) = Some (Numeric [Some 22; Some 44])
    /\ lookup_column "total" (columns f2) <> lookup_column "total" (columns f1).
Proof. eexists _, _. repeat split; try reflexivity. discriminate. Qed.

End TableBuilderFacts.

Module DockerHubFacts.
Import DockerHub PandasExamples StoreFacts.

(** *** Differences of one column *)

Lemma length_diff_from l : forall prev, length (diff_from prev l) = length l.
Proof. induction l as [|x l IH]; intros prev; simpl; [done|]. by rewrite IH. Qed.

Lemma diff_from_lookup l : forall prev i x y,
  l !! i = Some x -> l !! S i = Some y ->
  diff_from prev l !! S i = Some (nan_sub y x).
Proof.
  induction l as [|a l IH]; intros prev i x y Hx Hy; [done|].
  destruct i as [|i]; simpl in *.
  - injection Hx as ->. destruct l as [|b l]; [done|].
    simpl in *. by injection Hy as ->.
  - by apply IH.
Qed.

Lemma non_decreasing_tail v vs : non_decreasing (v :: vs) -> non_decreasing vs.
Proof. intros H i x y Hx Hy. by apply (H (S i)). Qed.

Lemma diff_from_non_negative vs : forall p,
  non_decreasing (p :: vs) ->
  non_negative (diff_from (Some p) (Some <$> vs)).
Proof.
  induction vs as [|v vs IH]; intros p Hmono; simpl; [by constructor|].
  constructor.
  - exists (v - p). split; [done|]. specialize (Hmono 0%nat p v eq_refl eq_refl). lia.
  - apply IH. by eapply non_decreasing_tail.
Qed.

Lemma deltas_non_negative vs :
  non_decreasing vs -> non_negative (drop 1 (diff_from None (Some <$> vs))).
Proof.
  destruct vs as [|v vs]; intros Hmono; simpl; [by constructor|].
  rewrite drop_0. by apply diff_from_non_negative.
Qed.

Lemma non_negative_add l1 l2 :
  non_negative l1 -> non_negative l2 -> non_negative (zip_with nan_add l1 l2).
Proof.
  unfold non_negative. intros H1. revert l2.
  induction H1 as [|c1 l1 (d1 & -> & ?) _ IH]; intros l2 H2; [by constructor|].
  destruct H2 as [|c2 l2 (d2 & -> & ?) H2]; simpl; constructor.
  - exists (d1 + d2). split; [done|lia].
  - by apply IH.
Qed.

(** *** Columns of a frame *)

Lemma series_diff_run {S} s (h : S) :
  series_diff s h = (if decide (diffable s) then inr (diffed s) else inl TypeError, h).
Proof.
  destruct s as [l|l]; [done|]. unfold series_diff, diffable. simpl.
  destruct (existsb id _); by case_decide.
Qed.

Lemma map_columns_diffable {S} cols (h : S) :
  Forall (fun c => diffable c.2) cols ->
  map_columns series_diff cols h = (inr (prod_map id diffed <$> cols), h).
Proof.
  induction 1 as [|[n s] cols Hs _ IH]; [done|].
  simpl. unfold bind at 1. rewrite series_diff_run, decide_True by done.
  unfold bind at 1. by rewrite IH.
Qed.

Lemma numeric_diffable cols :
  Forall (fun c : string * series => is_numeric c.2) cols ->
  Forall (fun c => diffable c.2) cols.
Proof. intros Hnum. eapply Forall_impl; [exact Hnum|]. by intros [n [l|l]]. Qed.

Lemma map_columns_diff {S} cols (h : S) :
  Forall (fun c => is_numeric c.2) cols ->
  map_columns series_diff cols h = (inr (prod_map id diffed <$> cols), h).
Proof. intros Hnum. by apply map_columns_diffable, numeric_diffable. Qed.

Lemma map_columns_diff_error {S} cols (h : S) :
  ~ Forall (fun c => diffable c.2) cols ->
  map_columns series_diff cols h = (inl TypeError, h).
Proof.
  induction cols as [|[n s] cols IH]; intros Hn.
  - destruct Hn. constructor.
  - simpl. unfold bind at 1. rewrite series_diff_run.
    case_decide as Hs; [|done].
    unfold bind at 1. rewrite IH; [done|].
    intros Hcols. apply Hn. by constructor.
Qed.

Lemma lookup_column_fmap (g : series -> series) name cols :
  lookup_column name (prod_map id g <$> cols) = g <$> lookup_column name cols.
Proof.
  induction cols as [|[n s] cols IH]; [done|]. simpl. by case_decide.
Qed.

Lemma load_and_process_diffable csv h :
  Forall (fun c => diffable c.2) (columns csv) ->
  exists h', load_and_process csv h = (inr (length h + 2)%nat, h')
    /\ h' !! (length h + 2)%nat = Some (processed csv)
    /\ length h' = (length h + 3)%nat.
Proof.
  intros Hnum. unfold load_and_process, bind at 1, alloc.
  unfold bind at 1, diff, bind at 1.
  rewrite (deref_run _ (length h) csv) by apply alloc_lookup_new.
  unfold bind at 1. rewrite map_columns_diffable by done.
  unfold alloc at 1, iloc_from, bind.
  set (f1 := mkDataFrame (index csv) _).
  rewrite (deref_run _ (length (h ++ [csv])) f1) by apply alloc_lookup_new.
  unfold alloc. eexists. split; [|split].
  - f_equal. f_equal. rewrite !length_app. simpl. lia.
  - replace (length h + 2)%nat with (length ((h ++ [csv]) ++ [f1]))
      by (rewrite !length_app; simpl; lia).
    apply alloc_lookup_new.
  - rewrite !length_app. simpl. lia.
Qed.

Lemma load_and_process_run csv h :
  Forall (fun c => is_numeric c.2) (columns csv) ->
  exists h', load_and_process csv h = (inr (length h + 2)%nat, h')
    /\ h' !! (length h + 2)%nat = Some (processed csv)
    /\ length h' = (length h + 3)%nat.
Proof. intros Hnum. by apply load_and_process_diffable, numeric_diffable. Qed.

Lemma load_and_process_error csv h :
  ~ Forall (fun c => diffable c.2) (columns csv) ->
  load_and_process csv h = (inl TypeError, h ++ [csv]).
Proof.
  intros Hnum. unfold load_and_process, bind at 1, alloc.
  unfold bind at 1, diff, bind at 1.
  rewrite (deref_run _ (length h) csv) by apply alloc_lookup_new.
  unfold bind at 1. by rewrite map_columns_diff_error.
Qed.

(** *** Sums of columns *)

Section Aggregation.
Context (Phi : list (option Z) -> Prop).
Context (Phi_add : forall l1 l2, Phi l1 -> Phi l2 -> Phi (zip_with nan_add l1 l2)).
Context (f : DataFrame Z).
Context (Phi_columns : forall c s,
  lookup_column c (columns f) = Some s -> exists l, s = Numeric l /\ Phi l).

Lemma getitem_run h df c :
  h !! df = Some f ->
  getitem df c h
    = (match lookup_column c (columns f) with
       | Some s => inr s
       | None => inl (KeyError c)
       end, h).
Proof.
  intros Hdf. unfold getitem, bind. rewrite (deref_run h df f) by done.
  by destruct (lookup_column c (columns f)).
Qed.

Lemma sum_loop h df cs : forall acc,
  h !! df = Some f -> Phi acc ->
  exists res,
    for_fold cs (Numeric acc) (fun c acc =>
      s <- getitem df c ;; series_add acc s)%py h = (res, h)
    /\ sum_outcome Phi f cs res.
Proof.
  induction cs as [|c cs IH]; intros acc Hdf Hacc; simpl.
  - eexists. split; [done|]. exists acc. by repeat split.
  - unfold bind at 1 2. rewrite getitem_run by done.
    destruct (lookup_column c (columns f)) as [s|] eqn:Hc.
    + destruct (Phi_columns c s Hc) as (l & -> & Hl). simpl.
      destruct (IH (zip_with nan_add acc l) Hdf (Phi_add _ _ Hacc Hl))
        as (res & Hrun & Hres).
      exists res. split; [done|].
      destruct res as [e|s]; simpl in *.
      * destruct Hres as (k & -> & Hk & Hmiss).
        exists k. split; [done|]. split; [by right|done].
      * destruct Hres as (l' & -> & Hl' & Hcs).
        exists l'. split; [done|]. split; [done|].
        constructor; [|done]. unfold present. by rewrite Hc.
    + eexists. split; [done|]. exists c. split; [done|]. split; [by left|done].
Qed.

Lemma sum_of_cases h df c0 cs :
  h !! df = Some f ->
  exists res, sum_of df c0 cs h = (res, h) /\ sum_outcome Phi f (c0 :: cs) res.
Proof.
  intros Hdf. unfold sum_of, bind at 1. rewrite getitem_run by done.
  destruct (lookup_column c0 (columns f)) as [s|] eqn:Hc.
  - destruct (Phi_columns c0 s Hc) as (l & -> & Hl).
    destruct (sum_loop h df cs l Hdf Hl) as (res & Hrun & Hres).
    exists res. split; [done|].
    destruct res as [e|s]; simpl in *.
    + destruct Hres as (k & -> & Hk & Hmiss).
      exists k. split; [done|]. split; [by right|done].
    + destruct Hres as (l' & -> & Hl' & Hcs).
      exists l'. split; [done|]. split; [done|].
      constructor; [|done]. unfold present. by rewrite Hc.
  - eexists. split; [done|]. exists c0. split; [done|]. split; [by left|done].
Qed.

(** One aggregation statement, [dh[name] = df[c0] + ...], and what
    follows it. *)
Lemma aggregate_step h df dh g name c0 cs (K : M (store (DataFrame Z)) ref) :
  h !! df = Some f -> h !! dh = Some g -> df <> dh ->
  (exists l h', (s <- sum_of df c0 cs ;; setitem dh name s ;;; K)%py h = K h'
        /\ Phi l /\ Forall (present f) (c0 :: cs)
        /\ h' !! df = Some f
        /\ h' !! dh = Some (mkDataFrame (index g)
                              (set_column name (Numeric l) (columns g))))
  \/ (exists k, (s <- sum_of df c0 cs ;; setitem dh name s ;;; K)%py h
                  = (inl (KeyError k), h)
                /\ k ∈ c0 :: cs /\ lookup_column k (columns f) = None).
Proof.
  intros Hdf Hdh Hne.
  destruct (sum_of_cases h df c0 cs Hdf) as (res & Hrun & Hres).
  destruct res as [e|s]; simpl in Hres.
  - destruct Hres as (k & -> & Hk & Hmiss). right. exists k.
    unfold bind at 1. rewrite Hrun. done.
  - destruct Hres as (l & -> & Hl & Hcs). left.
    unfold bind at 1. rewrite Hrun.
    unfold bind, setitem, update. rewrite Hdh.
    eexists l, _. split; [done|]. split; [done|]. split; [done|]. split.
    + by rewrite list_lookup_insert_ne.
    + rewrite list_lookup_insert_eq; [done|]. by eapply lookup_lt_Some.
Qed.

Lemma getitem_as_sum {A} (h : store (DataFrame Z)) df c
    (k : series -> M (store (DataFrame Z)) A) :
  (s <- getitem df c ;; k s)%py h = (s <- sum_of df c [] ;; k s)%py h.
Proof.
  unfold sum_of, bind. simpl. by destruct (getitem df c h) as [[e|s] h'].
Qed.

End Aggregation.


Lemma group_in_raw_columns k :
  k ∈ "library/almalinux" :: ALMALINUX
  \/ k ∈ ["library/centos"] \/ k ∈ ["library/oraclelinux"]
  \/ k ∈ "redhat/ubi8" :: RHEL
  \/ k ∈ ["library/rockylinux"; "rockylinux/rockylinux"] ->
  k ∈ raw_columns.
Proof.
  unfold raw_columns.
  repeat (rewrite elem_of_cons || rewrite elem_of_app || rewrite elem_of_nil).
  tauto.
Qed.

(** Runs the aggregation statement the goal starts with: either it raises,
    which settles the goal, or the proof goes on with what follows it. *)
Ltac aggregate Hdf Hdh l h' HP Hpr Hdf' Hdh' :=
  match goal with
  | Hadd : forall l1 l2, ?Phi l1 -> ?Phi l2 -> ?Phi (zip_with nan_add l1 l2),
    Hcols : forall c s, lookup_column c (columns ?f) = Some s -> _,
    Hne : ?df <> ?dh
    |- context [bind (sum_of ?df ?c0 ?cs)
                  (fun s => bind (setitem ?dh ?name s) (fun _ => ?K)) ?h] =>
      let k := fresh "k" in
      let Hk := fresh "Hk" in
      let Hmiss := fresh "Hmiss" in
      let Hrun := fresh "Hrun" in
      destruct (aggregate_step Phi Hadd f Hcols h df dh _ name c0 cs K Hdf Hdh Hne)
        as [(l & h' & Hrun & HP & Hpr & Hdf' & Hdh')|(k & Hrun & Hk & Hmiss)];
      rewrite Hrun; clear Hrun;
      [|eexists _, _; split; [done|]; exists k;
        split; [done|]; split; [apply group_in_raw_columns; tauto|done]]
  end.

Lemma load_dockerhub_data_cases (Phi : list (option Z) -> Prop) csv h :
  (forall l1 l2, Phi l1 -> Phi l2 -> Phi (zip_with nan_add l1 l2)) ->
  (forall c s, lookup_column c (columns (processed csv)) = Some s ->
               exists l, s = Numeric l /\ Phi l) ->
  Forall (fun c => is_numeric c.2) (columns csv) ->
  exists res h', load_dockerhub_data csv h = (res, h')
                 /\ load_outcome Phi csv res h'.
Proof.
  intros Hadd Hcols Hnum. unfold load_dockerhub_data, bind at 1.
  destruct (load_and_process_run csv h Hnum) as (h0 & -> & Hdf & Hlen).
  set (df := (length h + 2)%nat) in *.
  unfold bind at 1, bind at 1. rewrite (deref_run h0 df _ Hdf).
  unfold ret at 1, bind at 1, new_frame, alloc. rewrite Hlen.
  set (dh := (length h + 3)%nat).
  set (g0 := mkDataFrame _ _).
  assert (Hne : df <> dh) by (subst df dh; lia).
  assert (Hdf0 : (h0 ++ [g0]) !! df = Some (processed csv))
    by by apply alloc_lookup_old.
  assert (Hdh0 : (h0 ++ [g0]) !! dh = Some g0)
    by (subst dh; rewrite <- Hlen; apply alloc_lookup_new).
  clearbody df dh. revert Hdf0 Hdh0. generalize (h0 ++ [g0]).
  clear Hdf Hlen h0. intros h1 Hdf1 Hdh1.
  (* AlmaLinux *)
  aggregate Hdf1 Hdh1 l1 h2 HP1 Hpr1 Hdf2 Hdh2.
  (* CentOS Linux, Oracle Linux Server *)
  rewrite getitem_as_sum. aggregate Hdf2 Hdh2 l2 h3 HP2 Hpr2 Hdf3 Hdh3.
  rewrite getitem_as_sum. aggregate Hdf3 Hdh3 l3 h4 HP3 Hpr3 Hdf4 Hdh4.
  (* Red Hat Enterprise Linux *)
  aggregate Hdf4 Hdh4 l4 h5 HP4 Hpr4 Hdf5 Hdh5.
  (* Rocky Linux *)
  aggregate Hdf5 Hdh5 l5 h6 HP5 Hpr5 Hdf6 Hdh6.
  exists (inr dh), h6. split; [done|]. simpl.
  eexists. split; [exact Hdh6|]. split; [reflexivity|]. split.
  - repeat constructor; simpl; eauto.
  - unfold raw_columns.
    repeat (rewrite Forall_cons in * || rewrite Forall_app in * ).
    tauto.
Qed.

(** *** Sums of columns of any kind

    On a frame whose columns are not all numeric a sum can also raise the
    [TypeError] of [+]; whatever it does, it returns only when the frame
    has every column the sum names. *)







Lemma lookup_column_elem name (cols : list (string * series)) s :
  lookup_column name cols = Some s -> (name, s) ∈ cols.
Proof.
  induction cols as [|[n c] cols IH]; [done|]. simpl.
  case_decide as Hn; [intros [= ->]; subst; by left|].
  intros Hs. right. by apply IH.
Qed.

Lemma lookup_processed name csv :
  lookup_column name (columns (processed csv))
    = series_drop 1 <$> (diffed <$> lookup_column name (columns csv)).
Proof. unfold processed. simpl. by rewrite !lookup_column_fmap. Qed.

Lemma processed_columns (Phi : list (option Z) -> Prop) csv :
  (forall name l, (name, Numeric l) ∈ columns csv ->
                  Phi (drop 1 (diff_from None l))) ->
  Forall (fun c => is_numeric c.2) (columns csv) ->
  forall c s, lookup_column c (columns (processed csv)) = Some s ->
              exists l, s = Numeric l /\ Phi l.
Proof.
  intros HPhi Hnum c s. rewrite lookup_processed.
  destruct (lookup_column c (columns csv)) as [s0|] eqn:Hc; [|done].
  apply lookup_column_elem in Hc.
  pose proof (proj1 (Forall_forall _ _) Hnum _ Hc) as Hs0.
  destruct s0 as [l|l]; [|done]. simpl. intros [= <-].
  eexists. split; [done|]. by eapply HPhi.
Qed.

(** C5: [load_and_process] returns the frame without its first row, each
    column holding [value[i+1] - value[i]] at row [i]; the counters 100,
    140, 142 give the deltas 40, 2. *)
Theorem container_deltas csv h :
  Forall (fun c => is_numeric c.2) (columns csv) ->
  exists out,
    returned (load_and_process csv h) = Some out
    /\ index out = drop 1 (index csv)
    /\ (forall name l,
          lookup_column name (columns csv) = Some (Numeric l) ->
          lookup_column name (columns out)
            = Some (Numeric (drop 1 (diff_from None l)))
          /\ length (drop 1 (diff_from None l)) = (length l - 1)%nat
          /\ forall i x y,
               l !! i = Some (Some x) -> l !! S i = Some (Some y) ->
               drop 1 (diff_from None l) !! i = Some (Some (y - x)))
    /\ drop 1 (diff_from None [Some 100; Some 140; Some 142])
       = [Some 40; Some 2].
Proof.
  intros Hnum.
  destruct (load_and_process_run csv h Hnum) as (h' & Hrun & Hout & _).
  exists (processed csv). split; [|split; [done|split; [|done]]].
  - unfold returned. by rewrite Hrun.
  - intros name l Hl. split; [|split].
    + rewrite lookup_processed, Hl. done.
    + by rewrite length_drop, length_diff_from.
    + intros i x y Hx Hy. rewrite lookup_drop. simpl.
      by rewrite (diff_from_lookup l None i (Some x) (Some y)).
Qed.

Lemma container_deltas_witness :
  exists out,
    returned (load_and_process one_column_csv []) = Some out
    /\ index out = drop 1 three_days
    /\ lookup_column "library/rockylinux" (columns out)
       = Some (Numeric (drop 1 (diff_from None pulls))).
Proof.
  destruct (container_deltas one_column_csv []) as (out & Hret & Hidx & Hcol & _).
  { repeat constructor. }
  exists out. split; [done|]. split; [done|].
  by apply (Hcol "library/rockylinux" pulls).
Defined.




(** C10: when every column of the file is a cumulative counter, every
    cell of every column [load_dockerhub_data] returns is a number that is
    not negative; and it does return when the file has every column the
    aggregation reads. *)
Theorem cumulative_pulls_give_non_negative_columns csv h :
  Forall (fun c => cumulative c.2) (columns csv) ->
  (forall r, (load_dockerhub_data csv h).1 = inr r ->
     exists out,
       (load_dockerhub_data csv h).2 !! r = Some out
       /\ (columns out).*1 = Config.DH_DISTROS
       /\ Forall (fun c => exists l, c.2 = Numeric l /\ non_negative l)
                 (columns out))
  /\ (Forall (fun c => is_Some (lookup_column c (columns csv))) raw_columns ->
      exists r, (load_dockerhub_data csv h).1 = inr r).
Proof.
  intros Hcum.
  assert (Hnum : Forall (fun c => is_numeric c.2) (columns csv)).
  { eapply Forall_impl; [exact Hcum|]. by intros [n s] (vs & -> & _). }
  destruct (load_dockerhub_data_cases non_negative csv h)
    as (res & h' & Hrun & Hres); [apply non_negative_add| |done|].
  { apply processed_columns; [|done]. intros name l Hl.
    pose proof (proj1 (Forall_forall _ _) Hcum _ Hl) as (vs & [= ->] & Hvs).
    by apply deltas_non_negative. }
  rewrite Hrun. split.
  - intros r [= ->]. unfold load_outcome in Hres. simpl snd.
    destruct Hres as (cols & Hout & Hnames & Hcols & _). by eexists.
  - intros Hall. destruct res as [e|r]; [|by eexists]. unfold load_outcome in Hres.
    destruct Hres as (k & -> & Hk & Hk').
    pose proof (proj1 (Forall_forall _ _) Hall k Hk) as [s Hs].
    rewrite lookup_processed, Hs in Hk'. done.
Qed.

Lemma cumulative_pulls_give_non_negative_columns_witness :
  exists r out,
    (load_dockerhub_data full_csv []).1 = inr r
    /\ (load_dockerhub_data full_csv []).2 !! r = Some out
    /\ Forall (fun c => exists l, c.2 = Numeric l /\ non_negative l)
              (columns out).
Proof.
  assert (Hcum : Forall (fun c => cumulative c.2) (columns full_csv)).
  { apply Forall_fmap, Forall_forall. intros c _.
    exists [100; 140; 142]. split; [reflexivity|].
    intros [|[|[|i]]] x y; simpl; intros [= <-] [= <-]; lia. }
  destruct (cumulative_pulls_give_non_negative_columns full_csv [] Hcum)
    as [Hpos Hret].
  destruct Hret as [r Hr].
  { apply (bool_decide_unpack _). vm_compute. exact I. }
  destruct (Hpos r Hr) as (out & Hout & _ & Hcols).
  by exists r, out.
Defined.

End DockerHubFacts.


(** ** More on the download cache *)

Module FetcherScenarioFacts.
Import Fetcher FetcherExamples FetcherScenarios FetcherFacts.

(** [download_file] when it goes to the network, gets an answer and can
    write the cache file. *)
Lemma download_file_answered url d f w r file :
  needs_download d f w file ->
  remote w url = Answers r ->
  readable r ->
  exists msg,
    download_file url d f w =
      (if complete r then inr tt else inl ChunkedEncodingError,
       World (written file (concat (chunks r)) w) (cwd w) (now w) (remote w)
             (requested w ++ [url]) (progress_bar w ++ sizes (chunks r))
             ((stdout w ++ [msg])
                ++ if complete r then [DownloadedSuccessfully f] else [])).
Proof.
  intros (Hd & Hc & Hage) Ha Hlen. rewrite download_file_found by done.
  assert (Hrun : forall msg,
    (print msg ;;; _download_with_progress url (path_join d f) f)%py w =
      (if complete r then inr tt else inl ChunkedEncodingError,
       World (written file (concat (chunks r)) w) (cwd w) (now w) (remote w)
             (requested w ++ [url]) (progress_bar w ++ sizes (chunks r))
             ((stdout w ++ [msg])
                ++ if complete r then [DownloadedSuccessfully f] else []))).
  { intros msg. rewrite announced_download. cbv zeta. rewrite Ha.
    destruct (content_length r) as [|n|text] eqn:E;
      [by rewrite Hc|by rewrite Hc|by destruct (Hlen text)]. }
  unfold stat.
  rewrite (stat_at_creat (fs w) (fs w) (cwd w) _ file Hc (keeps_directories_refl _)).
  destruct Hage as [Hnone|(m & c & Hfile & Hold)].
  - rewrite Hnone. eexists. apply Hrun.
  - rewrite Hfile. simpl. rewrite bool_decide_true by done.
    eexists. apply Hrun.
Qed.

(** X1: when the directory exists, the cache file is missing or older than
    [CACHE_DAYS] and can be opened, and the server answers to the end with
    a [Content-Length] that is a number or with none, [download_file]
    returns normally, the cache file holds the chunks of the body in order
    and nothing else, stamped with the current time, and the URL was
    requested once. *)
Theorem download_stores_body url d f w r file :
  needs_download d f w file ->
  remote w url = Answers r ->
  readable r ->
  complete r = true ->
  (download_file url d f w).1 = inr tt
  /\ stat (download_file url d f w).2 (path_join d f)
     = inr (File (now w) (concat (chunks r)))
  /\ fs (download_file url d f w).2 = written file (concat (chunks r)) w
  /\ requested (download_file url d f w).2 = requested w ++ [url].
Proof.
  intros Hneed Ha Hlen Hc.
  destruct (download_file_answered url d f w r file Hneed Ha Hlen) as (msg & ->).
  rewrite Hc. simpl. repeat split.
  destruct Hneed as (_ & Hfile & _).
  exact (stat_at_written w _ file (concat (chunks r)) Hfile).
Qed.

Lemma download_stores_body_witness :
  (download_file "u" "data/" "epel.csv" (stale (Answers page))).1 = inr tt
  /\ stat (download_file "u" "data/" "epel.csv" (stale (Answers page))).2
          (path_join "data/" "epel.csv")
     = inr (File (now (stale (Answers page))) (concat (chunks page)))
  /\ requested (download_file "u" "data/" "epel.csv" (stale (Answers page))).2
     = requested (stale (Answers page)) ++ ["u"].
Proof.
  destruct (download_stores_body "u" "data/" "epel.csv" (stale (Answers page))
              page epel_csv_file) as (Hres & Hstat & _ & Hreq).
  - split; [reflexivity|]. split; [reflexivity|].
    right. exists 0, csv_bytes. split; [reflexivity|by vm_compute].
  - reflexivity.
  - intros text. discriminate.
  - reflexivity.
  - by repeat split.
Defined.

(** X2: under the same conditions, when the connection is lost in the
    middle of the body, [download_file] raises the error of
    [iter_content], and the cache file holds the chunks received so far:
    what was cached before is gone. *)
Theorem interrupted_download_leaves_partial_file url d f w r file :
  needs_download d f w file ->
  remote w url = Answers r ->
  readable r ->
  complete r = false ->
  (download_file url d f w).1 = inl ChunkedEncodingError
  /\ stat (download_file url d f w).2 (path_join d f)
     = inr (File (now w) (concat (chunks r))).
Proof.
  intros Hneed Ha Hlen Hc.
  destruct (download_file_answered url d f w r file Hneed Ha Hlen) as (msg & ->).
  rewrite Hc. simpl. split; [done|].
  destruct Hneed as (_ & Hfile & _).
  exact (stat_at_written w _ file (concat (chunks r)) Hfile).
Qed.

Lemma interrupted_download_leaves_partial_file_witness :
  (download_file "u" "data/" "epel.csv" (stale (Answers cut_off))).1
    = inl ChunkedEncodingError
  /\ stat (download_file "u" "data/" "epel.csv" (stale (Answers cut_off))).2
          (path_join "data/" "epel.csv")
     = inr (File (now (stale (Answers cut_off))) (concat (chunks cut_off))).
Proof.
  apply (interrupted_download_leaves_partial_file
           "u" "data/" "epel.csv" (stale (Answers cut_off)) cut_off epel_csv_file).
  - split; [reflexivity|]. split; [reflexivity|].
    right. exists 0, csv_bytes. split; [reflexivity|by vm_compute].
  - reflexivity.
  - intros text. discriminate.
  - reflexivity.
Defined.

(** X3: after a download that went through, a second call made no more
    than [CACHE_DAYS] days later requests nothing, whatever URL it is
    given, and leaves the file system as the first call left it. *)
Theorem second_call_uses_cache url url' d f w r file t :
  needs_download d f w file ->
  remote w url = Answers r ->
  readable r ->
  complete r = true ->
  t - now w <= timedelta_days Config.CACHE_DAYS ->
  let w1 := (download_file url d f w).2 in
  (download_file url' d f (at_time t w1)).1 = inr tt
  /\ requested (download_file url' d f (at_time t w1)).2 = requested w1
  /\ fs (download_file url' d f (at_time t w1)).2 = fs w1.
Proof.
  intros Hneed Ha Hlen Hc Ht w1.
  destruct (download_file_answered url d f w r file Hneed Ha Hlen) as (msg & Hrun).
  destruct Hneed as (Hd & Hfile & _).
  destruct (creat_at_inr _ _ _ _ Hfile) as (_ & Hnd & _).
  subst w1. rewrite Hrun. simpl.
  set (w1 := World _ _ _ _ _ _ _).
  assert (Hd1 : found (at_time t w1) d = true).
  { unfold found, stat in *. simpl.
    destruct (stat_at (fs w) (cwd w) d) as [err|e] eqn:Hs; [done|].
    destruct (stat_at_keeps (fs w) (written file (concat (chunks r)) w)
                (cwd w) d e) as [e' ->]; try done.
    - by apply written_keeps_directories.
    - apply written_keeps_entries. }
  rewrite download_file_found by done.
  assert (Hs : stat (at_time t w1) (path_join d f)
               = inr (File (now w) (concat (chunks r))))
    by exact (stat_at_written w _ file (concat (chunks r)) Hfile).
  rewrite Hs. simpl. rewrite bool_decide_false by lia. done.
Qed.

Lemma second_call_uses_cache_witness :
  (download_file "v" "data/" "epel.csv"
     (at_time (timedelta_days 15)
        (download_file "u" "data/" "epel.csv" (stale (Answers page))).2)).1
    = inr tt
  /\ requested (download_file "v" "data/" "epel.csv"
       (at_time (timedelta_days 15)
          (download_file "u" "data/" "epel.csv" (stale (Answers page))).2)).2
     = requested (download_file "u" "data/" "epel.csv" (stale (Answers page))).2
  /\ fs (download_file "v" "data/" "epel.csv"
       (at_time (timedelta_days 15)
          (download_file "u" "data/" "epel.csv" (stale (Answers page))).2)).2
     = fs (download_file "u" "data/" "epel.csv" (stale (Answers page))).2.
Proof.
  apply (second_call_uses_cache "u" "v" "data/" "epel.csv"
           (stale (Answers page)) page epel_csv_file (timedelta_days 15)).
  - split; [reflexivity|]. split; [reflexivity|].
    right. exists 0, csv_bytes. split; [reflexivity|by vm_compute].
  - reflexivity.
  - intros text. discriminate.
  - reflexivity.
  - by vm_compute.
Defined.

(** What [download_file] leaves of the file system when the directory
    exists: what it found, or what it found with the cache file written. *)
Lemma download_file_fs url d f w :
  found w d = true ->
  fs (download_file url d f w).2 = fs w
  \/ exists file body,
       creat w (path_join d f) = inr file
       /\ fs (download_file url d f w).2 = written file body w.
Proof.
  intros Hd. rewrite download_file_found by done.
  assert (Hrun : forall msg,
    let out := (print msg ;;;
                _download_with_progress url (path_join d f) f)%py w in
    fs out.2 = fs w
    \/ exists file body,
         creat w (path_join d f) = inr file /\ fs out.2 = written file body w).
  { intros msg. cbv zeta. rewrite announced_download. cbv zeta.
    destruct (remote w url) as [|r]; [by left|].
    destruct (content_length r); try (by left);
      (destruct (creat w (path_join d f)) as [e|file]; [by left|];
       right; by eexists _, _). }
  destruct (stat w (path_join d f)) as [err|e]; [apply Hrun|].
  case_bool_decide; [apply Hrun|by left].
Qed.

(** X4: when the directory exists, [download_file] leaves every entry as
    it was, except the cache file and the directory that holds it. *)
Theorem download_touches_only_its_paths url d f w l :
  found w d = true ->
  creat w (path_join d f) <> inr l ->
  (forall name, creat w (path_join d f) <> inr (name :: l)) ->
  fs (download_file url d f w).2 !! l = fs w !! l.
Proof.
  intros Hd Hfile Hdir.
  destruct (download_file_fs url d f w Hd) as [->|(file & body & Hc & ->)];
    [done|].
  destruct (creat_at_inr _ _ _ _ Hc) as (_ & _ & names & name & dir & t & _ & _ & -> & _).
  apply written_lookup_ne.
  - intros <-. by apply Hfile.
  - simpl. intros <-. by apply (Hdir name).
Qed.

Lemma download_touches_only_its_paths_witness :
  fs (download_file "u" "data/" "epel.csv" (stale (Answers page))).2 !! checkout
  = Some (Dir 0).
Proof.
  apply (download_touches_only_its_paths
           "u" "data/" "epel.csv" (stale (Answers page)) checkout).
  - reflexivity.
  - discriminate.
  - intros name. discriminate.
Defined.

Lemma sum_sizes cs :
  foldr Z.add 0 (sizes cs) = Z.of_nat (length (concat cs)).
Proof.
  induction cs as [|c cs IH]; [done|].
  simpl. rewrite IH, length_app. lia.
Qed.

(** X5: under the conditions of X1, whether the body comes to its end or
    not, the progress bar is advanced once per chunk, by the size of the
    chunk; the advances add up to the size of the file written. *)
Theorem progress_adds_up_to_file_size url d f w r file :
  needs_download d f w file ->
  remote w url = Answers r ->
  readable r ->
  exists content t,
    stat (download_file url d f w).2 (path_join d f) = inr (File t content)
    /\ progress_bar (download_file url d f w).2
       = progress_bar w ++ sizes (chunks r)
    /\ foldr Z.add 0 (sizes (chunks r)) = Z.of_nat (length content).
Proof.
  intros Hneed Ha Hlen.
  destruct (download_file_answered url d f w r file Hneed Ha Hlen) as (msg & ->).
  simpl. eexists _, _. split; [|split; [done|apply sum_sizes]].
  destruct Hneed as (_ & Hfile & _).
  exact (stat_at_written w _ file (concat (chunks r)) Hfile).
Qed.

Lemma progress_adds_up_to_file_size_witness :
  exists content t,
    stat (download_file "u" "data/" "epel.csv" (stale (Answers page))).2
         (path_join "data/" "epel.csv") = inr (File t content)
    /\ progress_bar (download_file "u" "data/" "epel.csv" (stale (Answers page))).2
       = progress_bar (stale (Answers page)) ++ sizes (chunks page)
    /\ foldr Z.add 0 (sizes (chunks page)) = Z.of_nat (length content).
Proof.
  apply (progress_adds_up_to_file_size
           "u" "data/" "epel.csv" (stale (Answers page)) page epel_csv_file).
  - split; [reflexivity|]. split; [reflexivity|].
    right. exists 0, csv_bytes. split; [reflexivity|by vm_compute].
  - reflexivity.
  - intros text. discriminate.
Defined.

(** *** What does not look at the network *)

Lemma offline_ret {A} (a : A) : offline (ret a).
Proof. done. Qed.

Lemma offline_raise {A} e : offline (@raise world A e).
Proof. done. Qed.

Lemma offline_bind {A B} (c : M world A) (k : A -> M world B) :
  offline c -> (forall a, offline (k a)) -> offline (bind c k).
Proof.
  intros Hc Hk net w. unfold bind. rewrite Hc.
  destruct (c w) as [[e|a] w']; simpl; [done|]. apply Hk.
Qed.

Lemma offline_try_except {A} (c : M world A) handler :
  offline c ->
  (forall e h, handler e = Some h -> offline h) ->
  offline (try_except c handler).
Proof.
  intros Hc Hh net w. unfold try_except. rewrite Hc.
  destruct (c w) as [[e|a] w']; simpl; [|done].
  destruct (handler e) as [h|] eqn:E; [|done]. by apply (Hh e).
Qed.

Lemma offline_path_exists p : offline (path_exists p).
Proof. done. Qed.

Lemma offline_mkdir p : offline (mkdir p).
Proof.
  intros net w. unfold mkdir. simpl.
  destruct (parent_at (fs w) (cwd w) p) as [e|[[dir name]|]]; try done.
  destruct (negb (plain name)); [done|].
  by destruct (fs w !! (name :: dir)).
Qed.

Lemma offline_makedirs_body makedirs name :
  (forall head, offline (makedirs head)) -> offline (makedirs_body makedirs name).
Proof.
  intros Hrec. unfold makedirs_body.
  destruct (path_split name) as [h1 t1].
  destruct (if decide (t1 = "") then path_split h1 else (h1, t1)) as [h t].
  apply offline_bind.
  - destruct (_ && _); [|apply offline_ret].
    apply offline_bind; [apply offline_path_exists|intros; apply offline_ret].
  - intros [|]; [|apply offline_mkdir].
    apply offline_bind.
    + apply offline_try_except; [apply Hrec|].
      intros e h'. destruct e; try done. intros [= <-]. apply offline_ret.
    + intros _. case_decide; [apply offline_ret|apply offline_mkdir].
Qed.

Lemma offline_makedirs_from depth : forall name, offline (makedirs_from depth name).
Proof.
  induction depth as [|depth IH]; intros name; simpl.
  - apply offline_raise.
  - by apply offline_makedirs_body.
Qed.

Lemma bind_offline {A B} (c : M world A) (k : A -> M world B) net w :
  offline c ->
  bind c k (set_remote net w)
    = match (c w).1 with
      | inl e => (inl e, set_remote net (c w).2)
      | inr a => k a (set_remote net (c w).2)
      end.
Proof. intros Hc. unfold bind. rewrite Hc. by destruct (c w) as [[e|a] w']. Qed.

(** X6: the status code of the response plays no part: under any other
    status code [download_file] has the same outcome and leaves the same
    file system, messages, progress and requests. *)
Theorem status_code_is_ignored url d f w r code :
  let out := download_file url d f (serving (Answers r) w) in
  let out' := download_file url d f (serving (Answers (with_status code r)) w) in
  out.1 = out'.1 /\ fs out.2 = fs out'.2 /\ stdout out.2 = stdout out'.2
  /\ progress_bar out.2 = progress_bar out'.2
  /\ requested out.2 = requested out'.2.
Proof.
  cbv zeta.
  change (serving (Answers r) w) with (set_remote (fun _ => Answers r) w).
  change (serving (Answers (with_status code r)) w)
    with (set_remote (fun _ => Answers (with_status code r)) w).
  unfold download_file.
  rewrite !(bind_offline (path_exists d)) by apply offline_path_exists.
  simpl.
  set (c := if negb (found w d) then makedirs d else ret tt).
  assert (Hc : offline c).
  { subst c. destruct (negb _); [apply offline_makedirs_from|apply offline_ret]. }
  rewrite !(bind_offline c) by done.
  destruct (c w) as [[e|[]] w2]; simpl; [done|].
  rewrite !check_cache_run.
  assert (Hrun : forall msg,
    let run (x : response) :=
      (print msg ;;; _download_with_progress url (path_join d f) f)%py
        (set_remote (fun _ => Answers x) w2) in
    (run r).1 = (run (with_status code r)).1
    /\ fs (run r).2 = fs (run (with_status code r)).2
    /\ stdout (run r).2 = stdout (run (with_status code r)).2
    /\ progress_bar (run r).2 = progress_bar (run (with_status code r)).2
    /\ requested (run r).2 = requested (run (with_status code r)).2).
  { intros msg. cbv beta zeta. rewrite !announced_download. cbv zeta. simpl.
    unfold creat. simpl.
    destruct (content_length r); try done;
      by destruct (creat_at (fs w2) (cwd w2) (path_join d f)). }
  unfold stat. simpl.
  destruct (stat_at (fs w2) (cwd w2) (path_join d f)) as [err|e]; [apply Hrun|].
  case_bool_decide; [apply Hrun|done].
Qed.

(** X7: when the directory exists and the cache file does not, a download
    from a server that cannot be reached raises [ConnectionError] and
    leaves the file system as it was: no cache file is made. *)
Theorem failed_first_download_leaves_no_file url d f w :
  found w d = true ->
  found w (path_join d f) = false ->
  remote w url = Unreachable ->
  (download_file url d f w).1 = inl ConnectionError
  /\ fs (download_file url d f w).2 = fs w
  /\ found (download_file url d f w).2 (path_join d f) = false.
Proof.
  intros Hd Hnone Hu. rewrite download_file_found by done.
  unfold found in Hnone.
  destruct (stat w (path_join d f)) as [err|e] eqn:Hs; [|done].
  rewrite announced_download. cbv zeta. rewrite Hu. simpl.
  split; [done|]. split; [done|].
  unfold found, stat in *. simpl. by rewrite Hs.
Qed.

Lemma failed_first_download_leaves_no_file_witness :
  (download_file "u" "data/" "dockerhub.csv" (stale Unreachable)).1
    = inl ConnectionError
  /\ fs (download_file "u" "data/" "dockerhub.csv" (stale Unreachable)).2
     = fs (stale Unreachable)
  /\ found (download_file "u" "data/" "dockerhub.csv" (stale Unreachable)).2
           (path_join "data/" "dockerhub.csv") = false.
Proof.
  apply (failed_first_download_leaves_no_file
           "u" "data/" "dockerhub.csv" (stale Unreachable)); reflexivity.
Defined.

Lemma append_cancel_l (d x y : string) : d +:+ x = d +:+ y -> x = y.
Proof.
  induction d as [|c d IH]; [done|].
  change (String c (d +:+ x) = String c (d +:+ y) -> x = y).
  intros [= H]. by apply IH.
Qed.

Lemma join_is_concatenation d f :
  startswith_sep f = false ->
  path_join d f = d +:+ f <-> d = "" \/ endswith_sep d = true.
Proof.
  intros Hf. unfold path_join. rewrite Hf.
  destruct (decide (d = "")) as [->|Hd]; [by split; [left|]|].
  rewrite bool_decide_false by done. simpl.
  destruct (endswith_sep d); [by split; [right|]|].
  split; [|by intros [?|?]].
  intros Heq%append_cancel_l. destruct f as [|c f]; [done|].
  simpl in *. injection Heq as <- _. by vm_compute in Hf.
Qed.

(** X8: the loaders read [DATA_DIR + name] while [download_file] writes
    [os.path.join(DATA_DIR, name)].  For a name that does not start with a
    slash the two are one path exactly when the directory is empty or ends
    with a slash; and with a directory that ends with a slash, as
    [DATA_DIR] does, after a download that went through the path read
    holds the body. *)
Theorem loader_reads_what_was_downloaded url d f w r file :
  needs_download d f w file ->
  remote w url = Answers r ->
  readable r ->
  complete r = true ->
  startswith_sep f = false ->
  (path_join d f = d +:+ f <-> d = "" \/ endswith_sep d = true)
  /\ (endswith_sep d = true ->
      stat (download_file url d f w).2 (d +:+ f)
        = inr (File (now w) (concat (chunks r)))).
Proof.
  intros Hneed Ha Hlen Hc Hf. split; [by apply join_is_concatenation|].
  intros Hd. rewrite <- (proj2 (join_is_concatenation d f Hf)) by by right.
  destruct (download_file_answered url d f w r file Hneed Ha Hlen) as (msg & ->).
  simpl. destruct Hneed as (_ & Hfile & _).
  exact (stat_at_written w _ file (concat (chunks r)) Hfile).
Qed.

Lemma loader_reads_what_was_downloaded_witness :
  stat (download_file "u" Config.DATA_DIR "epel.csv" (stale (Answers page))).2
       (csv_path "epel.csv")
  = inr (File (now (stale (Answers page))) (concat (chunks page))).
Proof.
  apply (loader_reads_what_was_downloaded
           "u" Config.DATA_DIR "epel.csv" (stale (Answers page)) page
           epel_csv_file).
  - split; [reflexivity|]. split; [reflexivity|].
    right. exists 0, csv_bytes. split; [reflexivity|by vm_compute].
  - reflexivity.
  - intros text. discriminate.
  - reflexivity.
  - reflexivity.
  - reflexivity.
Defined.

(** [download_file] when it goes to the network and the answer cannot be
    stored. *)
Lemma download_file_wanted url d f w :
  wants_download d f w ->
  exists msg,
    download_file url d f w
      = (print msg ;;; _download_with_progress url (path_join d f) f)%py w.
Proof.
  intros [Hd Hage]. rewrite download_file_found by done.
  destruct (stat w (path_join d f)) as [err|e]; [by eexists|].
  rewrite bool_decide_true by done. by eexists.
Qed.

(** X21: an empty [local_dir] cannot be used: [os.path.exists] does not
    find it and [os.makedirs] cannot make it, so [download_file] raises
    [FileNotFoundError] before it looks for the file or asks the server. *)
Theorem empty_directory_name_raises url f w :
  download_file url "" f w = (inl (FileNotFoundError ""), w).
Proof. by destruct w. Qed.

(** X22: a [Content-Length] that [int] cannot read makes [download_file]
    raise [ValueError] once the request is made and before the cache file
    is opened: the file system is as it was. *)
Theorem unreadable_length_raises_value_error url d f w r text :
  wants_download d f w ->
  remote w url = Answers r ->
  content_length r = NotAnInteger text ->
  (download_file url d f w).1 = inl ValueError
  /\ fs (download_file url d f w).2 = fs w
  /\ requested (download_file url d f w).2 = requested w ++ [url].
Proof.
  intros Hwant Ha Hlen.
  destruct (download_file_wanted url d f w Hwant) as (msg & ->).
  rewrite announced_download. cbv zeta. by rewrite Ha, Hlen.
Qed.

Lemma unreadable_length_raises_value_error_witness :
  (download_file "u" "data/" "epel.csv" (stale (Answers garbled))).1
    = inl ValueError
  /\ fs (download_file "u" "data/" "epel.csv" (stale (Answers garbled))).2
     = fs (stale (Answers garbled))
  /\ requested (download_file "u" "data/" "epel.csv" (stale (Answers garbled))).2
     = requested (stale (Answers garbled)) ++ ["u"].
Proof.
  apply (unreadable_length_raises_value_error
           "u" "data/" "epel.csv" (stale (Answers garbled)) garbled "8, 8").
  - split; [reflexivity|]. by vm_compute.
  - reflexivity.
  - reflexivity.
Defined.

(** X23: when the cache file cannot be opened for writing (its directory
    is missing, as for a [local_file] in a sub-directory that was not
    made, or the path is a directory), [download_file] raises the error
    of [open] after the request is made, and the file system is as it
    was. *)
Theorem unopenable_cache_file_raises url d f w r e :
  wants_download d f w ->
  remote w url = Answers r ->
  readable r ->
  creat w (path_join d f) = inl e ->
  (download_file url d f w).1 = inl (os_error e (path_join d f))
  /\ fs (download_file url d f w).2 = fs w
  /\ requested (download_file url d f w).2 = requested w ++ [url].
Proof.
  intros Hwant Ha Hlen Hc.
  destruct (download_file_wanted url d f w Hwant) as (msg & ->).
  rewrite announced_download. cbv zeta. rewrite Ha, Hc.
  destruct (content_length r) as [|n|text] eqn:E; try done.
  by destruct (Hlen text).
Qed.

Lemma unopenable_cache_file_raises_witness :
  (download_file "u" "data" "weekly/epel.csv" (stale (Answers page))).1
    = inl (FileNotFoundError "data/weekly/epel.csv")
  /\ fs (download_file "u" "data" "weekly/epel.csv" (stale (Answers page))).2
     = fs (stale (Answers page))
  /\ requested (download_file "u" "data" "weekly/epel.csv" (stale (Answers page))).2
     = requested (stale (Answers page)) ++ ["u"].
Proof.
  apply (unopenable_cache_file_raises
           "u" "data" "weekly/epel.csv" (stale (Answers page)) page ENOENT).
  - split; [reflexivity|]. by vm_compute.
  - reflexivity.
  - intros text. discriminate.
  - reflexivity.
Defined.

(** *** The first run *)

Lemma components_single f :
  forallb (fun c => negb (is_sep c)) (list_ascii_of_string f) = true ->
  components f = [f].
Proof.
  induction f as [|c f IH]; simpl; [done|].
  intros [Hc Hf]%andb_true_iff. apply negb_true_iff in Hc.
  by rewrite Hc, IH.
Qed.

Lemma single_name_start f : single_name f -> startswith_sep f = false.
Proof.
  intros [Hf _]. destruct f as [|c f]; [done|]. simpl in *.
  apply andb_true_iff in Hf as [Hc _]. by apply negb_true_iff.
Qed.

Lemma single_name_not_empty f : single_name f -> f <> "".
Proof. intros [_ Hp] ->. done. Qed.

Lemma components_data_dir f :
  single_name f -> components (Config.DATA_DIR +:+ f) = ["data"; f].
Proof.
  intros [Hf _].
  change (Config.DATA_DIR +:+ f)
    with (String "d" (String "a" (String "t" (String "a" (String "/" f))))).
  simpl. by rewrite components_single.
Qed.

(** [DATA_DIR] has one name: there is no parent to make first. *)
Lemma makedirs_data_dir w : makedirs Config.DATA_DIR w = mkdir Config.DATA_DIR w.
Proof. reflexivity. Qed.

(** Two places at different depths are different. *)
Ltac by_depth :=
  let H := fresh in
  intros H; apply (f_equal length) in H; simpl in H; lia.

(** X24: the first run in a checkout, for the directory [DATA_DIR] that the
    loaders pass.  When the working directory has no entry [data],
    [download_file] makes the directory, then the file in it: it returns
    normally, the file holds the body, the path [DATA_DIR + local_file]
    that the loaders read leads to it, and nothing else changes but the
    working directory, for its modification time. *)
Theorem first_download_makes_the_directory url f w r t :
  single_name f ->
  fs w !! cwd w = Some (Dir t) ->
  fs w !! ("data" :: cwd w) = None ->
  fs w !! (f :: "data" :: cwd w) = None ->
  remote w url = Answers r ->
  readable r ->
  complete r = true ->
  let out := download_file url Config.DATA_DIR f w in
  out.1 = inr tt
  /\ fs out.2 !! cwd w = Some (Dir (now w))
  /\ fs out.2 !! ("data" :: cwd w) = Some (Dir (now w))
  /\ fs out.2 !! (f :: "data" :: cwd w)
     = Some (File (now w) (concat (chunks r)))
  /\ stat out.2 (Config.DATA_DIR +:+ f)
     = inr (File (now w) (concat (chunks r)))
  /\ forall l, l <> cwd w -> l <> "data" :: cwd w -> l <> f :: "data" :: cwd w ->
               fs out.2 !! l = fs w !! l.
Proof.
  intros Hf Hcw Hdir Hfile Ha Hlen Hc out.
  pose proof (single_name_start f Hf) as Hstart.
  pose proof (single_name_not_empty f Hf) as Hne.
  assert (Hjoin : path_join Config.DATA_DIR f = Config.DATA_DIR +:+ f).
  { apply join_is_concatenation; [done|by right]. }
  assert (Hmissing : found w Config.DATA_DIR = false).
  { unfold found, stat, stat_at, Config.DATA_DIR, start. simpl.
    rewrite Hcw. change (step (cwd w) "data") with ("data" :: cwd w).
    by rewrite Hdir. }
  set (m1 := add_entry ("data" :: cwd w) (Dir (now w)) (now w) (fs w)).
  assert (Hmk : makedirs Config.DATA_DIR w = (inr tt, set_fs (fun _ => m1) w)).
  { rewrite makedirs_data_dir.
    unfold mkdir, parent_at, Config.DATA_DIR, start. simpl.
    rewrite Hcw. simpl. by rewrite Hdir. }
  assert (Hm1cw : m1 !! cwd w = Some (Dir (now w))).
  { subst m1. unfold add_entry. simpl.
    rewrite lookup_insert_ne by by_depth. by rewrite lookup_insert_eq. }
  assert (Hm1dir : m1 !! ("data" :: cwd w) = Some (Dir (now w))).
  { subst m1. unfold add_entry. by rewrite lookup_insert_eq. }
  assert (Hm1file : m1 !! (f :: "data" :: cwd w) = None).
  { subst m1. unfold add_entry. simpl.
    by rewrite !lookup_insert_ne by by_depth. }
  assert (Hcreat : creat_at m1 (cwd w) (Config.DATA_DIR +:+ f)
                   = inr (f :: "data" :: cwd w)).
  { unfold creat_at, parent_at, trailing_slash.
    rewrite components_data_dir by done. simpl.
    rewrite decide_False by done. simpl.
    change (start (cwd w) (Config.DATA_DIR +:+ f)) with (cwd w).
    rewrite Hm1cw. change (step (cwd w) "data") with ("data" :: cwd w).
    rewrite Hm1dir. destruct Hf as [_ ->]. simpl.
    rewrite bool_decide_false by (by intros []). by rewrite Hm1file. }
  assert (Hrun : out =
    (inr tt,
     World (add_entry (f :: "data" :: cwd w) (File (now w) (concat (chunks r)))
              (now w) m1)
           (cwd w) (now w) (remote w) (requested w ++ [url])
           (progress_bar w ++ sizes (chunks r))
           ((stdout w ++ [DoesNotExist f]) ++ [DownloadedSuccessfully f]))).
  { subst out. unfold download_file, bind at 1.
    unfold path_exists at 1, gets at 1.
    rewrite Hmissing. simpl. unfold bind at 1. rewrite Hmk.
    rewrite check_cache_run, Hjoin.
    set (w1 := set_fs _ w).
    assert (Hcreat1 : creat w1 (Config.DATA_DIR +:+ f)
                      = inr (f :: "data" :: cwd w)) by exact Hcreat.
    unfold stat.
    rewrite (stat_at_creat (fs w1) (fs w1) (cwd w1) _ _ Hcreat1
               (keeps_directories_refl _)).
    change (fs w1) with m1. rewrite Hm1file.
    rewrite announced_download. cbv zeta.
    change (remote w1) with (remote w). rewrite Ha, Hcreat1, Hc.
    unfold written. change (fs w1) with m1. rewrite Hm1file.
    destruct (content_length r) as [|n|text] eqn:E; try done.
    by destruct (Hlen text). }
  rewrite Hrun. simpl. split; [done|].
  set (m2 := add_entry _ _ _ m1).
  assert (Hm2dir : m2 !! ("data" :: cwd w) = Some (Dir (now w))).
  { subst m2. unfold add_entry. simpl.
    rewrite lookup_insert_ne by by_depth. by rewrite lookup_insert_eq. }
  assert (Hm2file : m2 !! (f :: "data" :: cwd w)
                    = Some (File (now w) (concat (chunks r)))).
  { subst m2. unfold add_entry. by rewrite lookup_insert_eq. }
  assert (Hm2cw : m2 !! cwd w = Some (Dir (now w))).
  { subst m2. unfold add_entry. simpl.
    by rewrite !lookup_insert_ne by by_depth. }
  split; [done|]. split; [done|]. split; [done|]. split.
  - unfold stat. simpl.
    rewrite (stat_at_creat m1 m2 (cwd w) _ _ Hcreat); [by rewrite Hm2file|].
    intros l t' Hl. subst m2. unfold add_entry. simpl.
    rewrite lookup_insert_ne by (intros <-; by rewrite Hm1file in Hl).
    destruct (decide ("data" :: cwd w = l)) as [<-|Hne'].
    + rewrite lookup_insert_eq. by eexists.
    + rewrite lookup_insert_ne by done. by exists t'.
  - intros l Hl1 Hl2 Hl3. subst m2 m1. unfold add_entry. simpl.
    by rewrite !lookup_insert_ne by done.
Qed.

Lemma first_download_makes_the_directory_witness :
  (download_file "u" Config.DATA_DIR "epel.csv" (fresh_checkout (Answers page))).1
    = inr tt
  /\ stat (download_file "u" Config.DATA_DIR "epel.csv"
             (fresh_checkout (Answers page))).2
          (csv_path "epel.csv")
     = inr (File 9 (concat page_chunks)).
Proof.
  destruct (first_download_makes_the_directory
              "u" "epel.csv" (fresh_checkout (Answers page)) page 0)
    as (Hres & _ & _ & _ & Hstat & _); try reflexivity.
  - split; reflexivity.
  - intros text. discriminate.
  - by split.
Defined.

End FetcherScenarioFacts.


(** ** More on the EPEL loader and the row filters *)

Module EpelCallFacts.
Import Epel EpelExamples EpelCalls StoreFacts EpelFacts.

(** Every call returns, and returns the rows it keeps. *)
Lemma call_run c h df f :
  h !! df = Some f ->
  exists r h',
    call c df h = (inr r, h')
    /\ h' !! r = Some (filter (fun ir => keeps c ir.2) f).
Proof.
  intros Hdf.
  assert (Hmask : forall (mask : RawUsageRow -> Prop)
                         `{!forall r, Decision (mask r)},
    (forall r, mask r <-> keeps c r) ->
    exists r h',
      getitem_mask df mask h = (inr r, h')
      /\ h' !! r = Some (filter (fun ir => keeps c ir.2) f)).
  { intros mask ? Hiff. rewrite (getitem_mask_run h df f) by done.
    eexists _, _. split; [done|]. rewrite alloc_lookup_new. f_equal.
    apply list_filter_iff. intros ir. apply Hiff. }
  destruct c; cbn [call].
  - by apply Hmask.
  - unfold filter_by_system_age.
    case_decide as H1;
      [apply Hmask; intros r; cbn [keeps]; by rewrite decide_True|].
    case_decide as H2;
      [apply Hmask; intros r; cbn [keeps];
       by rewrite decide_False, decide_True|].
    destruct (as_int age_condition) as [n|] eqn:Hn.
    + apply Hmask. intros r. cbn [keeps].
      by rewrite !decide_False, Hn.
    + exists df, h. split; [done|]. rewrite Hdf. f_equal.
      symmetry. apply filter_all. intros ir. cbn [keeps].
      by rewrite !decide_False, Hn.
  - by apply Hmask.
  - by apply Hmask.
  - unfold filter_by_arch.
    case_decide as H1; apply Hmask; intros r; cbn [keeps].
    + by rewrite decide_True.
    + by rewrite decide_False.
  - by apply Hmask.
Qed.

Lemma call_twice a b h df f :
  h !! df = Some f ->
  returned ((r <- call a df ;; call b r)%py h)
    = Some (filter (fun ir => keeps b ir.2 /\ keeps a ir.2) f).
Proof.
  intros Hdf. destruct (call_run a h df f Hdf) as (r1 & h1 & Hrun1 & Hr1).
  destruct (call_run b h1 r1 _ Hr1) as (r2 & h2 & Hrun2 & Hr2).
  unfold bind, returned. rewrite Hrun1, Hrun2. simpl. rewrite Hr2. f_equal.
  apply list_filter_filter.
Qed.

(** X9: any two calls of the row filters commute: applied in either
    order they return the same labelled rows, those of the input that both
    calls keep. *)
Theorem row_filters_commute a b h df f :
  h !! df = Some f ->
  exists out,
    returned ((r <- call a df ;; call b r)%py h) = Some out
    /\ returned ((r <- call b df ;; call a r)%py h) = Some out
    /\ forall ir, ir ∈ out <-> ir ∈ f /\ keeps a ir.2 /\ keeps b ir.2.
Proof.
  intros Hdf. eexists. split; [by apply call_twice|]. split.
  - rewrite (call_twice b a h df f Hdf). f_equal.
    apply list_filter_iff. intros ir. tauto.
  - intros ir. rewrite list_elem_of_filter. tauto.
Qed.

Lemma row_filters_commute_witness :
  exists out,
    returned ((r <- call (ByRepoTag "epel-9") 0%nat ;;
               call (BySystemAge (PyStr "longterm")) r)%py [read_csv epel_csv])
      = Some out
    /\ returned ((r <- call (BySystemAge (PyStr "longterm")) 0%nat ;;
                  call (ByRepoTag "epel-9") r)%py [read_csv epel_csv])
      = Some out.
Proof.
  destruct (row_filters_commute (ByRepoTag "epel-9") (BySystemAge (PyStr "longterm"))
              [read_csv epel_csv] 0%nat (read_csv epel_csv) eq_refl)
    as (out & H1 & H2 & _).
  by exists out.
Defined.

(** X10: every call of a row filter is idempotent: applied to its own
    result it returns the same rows again. *)
Theorem row_filters_are_idempotent a h df f :
  h !! df = Some f ->
  exists out,
    returned (call a df h) = Some out
    /\ returned ((r <- call a df ;; call a r)%py h) = Some out.
Proof.
  intros Hdf. destruct (call_run a h df f Hdf) as (r1 & h1 & Hrun1 & Hr1).
  eexists. split.
  - unfold returned. rewrite Hrun1. exact Hr1.
  - rewrite (call_twice a a h df f Hdf). f_equal.
    apply list_filter_iff. intros ir. tauto.
Qed.

Lemma row_filters_are_idempotent_witness :
  exists out,
    returned (call ValidRockyVersions 0%nat [read_csv epel_csv]) = Some out
    /\ returned ((r <- call ValidRockyVersions 0%nat ;;
                  call ValidRockyVersions r)%py [read_csv epel_csv]) = Some out.
Proof.
  apply (row_filters_are_idempotent ValidRockyVersions
           [read_csv epel_csv] 0%nat (read_csv epel_csv) eq_refl).
Defined.

Lemma length_filter_split {A} (P Q : A -> Prop)
    `{!forall x, Decision (P x), !forall x, Decision (Q x)} (l : list A) :
  (forall x, Q x <-> ~ P x) ->
  (length (filter P l) + length (filter Q l) = length l)%nat.
Proof.
  intros HPQ. induction l as [|x l IH]; [done|].
  rewrite !filter_cons. destruct (decide (P x)) as [HP|HP].
  - rewrite (decide_False (P:=Q x)) by (rewrite HPQ; tauto). simpl. lia.
  - rewrite (decide_True (P:=Q x)) by (by rewrite HPQ). simpl. lia.
Qed.

(** X11: [filter_by_arch] with ['altarch'] and with ['x86_64'] split the
    frame: no row is in both results, and the two results have as many
    rows together as the input. *)
Theorem arch_filters_split_the_frame h df f :
  h !! df = Some f ->
  exists alt x86,
    returned (filter_by_arch df "altarch" h) = Some alt
    /\ returned (filter_by_arch df "x86_64" h) = Some x86
    /\ (length alt + length x86 = length f)%nat
    /\ forall ir, ir ∈ alt -> ir ∉ x86.
Proof.
  intros Hdf. eexists _, _.
  split; [by apply getitem_mask_returned|].
  split; [by apply getitem_mask_returned|]. split.
  - rewrite Nat.add_comm. apply length_filter_split. done.
  - intros ir. rewrite !list_elem_of_filter. tauto.
Qed.

Lemma arch_filters_split_the_frame_witness :
  exists alt x86,
    returned (filter_by_arch 0%nat "altarch" [read_csv epel_csv]) = Some alt
    /\ returned (filter_by_arch 0%nat "x86_64" [read_csv epel_csv]) = Some x86
    /\ (length alt + length x86 = length (read_csv epel_csv))%nat
    /\ forall ir, ir ∈ alt -> ir ∉ x86.
Proof.
  apply (arch_filters_split_the_frame [read_csv epel_csv] 0%nat
           (read_csv epel_csv) eq_refl).
Defined.

(** X12: ['longterm'] is the bound [1]: [filter_by_system_age] returns the
    same rows for ['longterm'], for the integer [1] and for [True].  No row
    is both long-term and ephemeral, and a row is in one of the two buckets
    exactly when its [sys_age] is at least 1. *)
Theorem system_age_buckets_relate h df f :
  h !! df = Some f ->
  exists longterm ephemeral,
    returned (filter_by_system_age df (PyStr "longterm") h) = Some longterm
    /\ returned (filter_by_system_age df (PyStr "ephemeral") h) = Some ephemeral
    /\ returned (filter_by_system_age df (PyInt 1) h) = Some longterm
    /\ returned (filter_by_system_age df (PyBool true) h) = Some longterm
    /\ (forall ir, ir ∈ longterm -> ir ∉ ephemeral)
    /\ (forall ir, ir ∈ f ->
          (ir ∈ longterm \/ ir ∈ ephemeral) <-> 1 <= sys_age ir.2).
Proof.
  intros Hdf. eexists _, _.
  split; [by apply getitem_mask_returned|].
  split; [by apply getitem_mask_returned|].
  split; [by apply getitem_mask_returned|].
  split; [by apply getitem_mask_returned|]. split.
  - intros ir. rewrite !list_elem_of_filter. lia.
  - intros ir Hir. rewrite !list_elem_of_filter. split; [lia|].
    intros Hage. destruct (decide (sys_age ir.2 = 1)); [right|left]; split;
      try done; lia.
Qed.

Lemma system_age_buckets_relate_witness :
  exists longterm,
    returned (filter_by_system_age 0%nat (PyStr "longterm") [read_csv epel_csv])
      = Some longterm
    /\ returned (filter_by_system_age 0%nat (PyInt 1) [read_csv epel_csv])
      = Some longterm.
Proof.
  destruct (system_age_buckets_relate [read_csv epel_csv] 0%nat
              (read_csv epel_csv) eq_refl)
    as (longterm & ephemeral & H1 & _ & H3 & _).
  by exists longterm.
Defined.

(** X13: the bound of [filter_by_date] is exclusive, and a later bound
    keeps a subsequence of what an earlier bound keeps; filtering by the
    earlier and then by the later bound is filtering by the later one. *)
Theorem filter_by_date_is_exclusive_and_antitone h df f col s1 s2 :
  h !! df = Some f ->
  s1 <= s2 ->
  exists f1 f2,
    returned (filter_by_date df s1 col h) = Some f1
    /\ returned (filter_by_date df s2 col h) = Some f2
    /\ sublist f2 f1
    /\ (forall ir, ir ∈ f1 -> date_of col ir.2 <> s1)
    /\ returned ((r <- filter_by_date df s1 col ;; filter_by_date r s2 col)%py h)
       = Some f2.
Proof.
  intros Hdf Hle.
  assert (Hnest :
    filter (fun ir : nat * RawUsageRow => date_of col ir.2 > s2)
      (filter (fun ir => date_of col ir.2 > s1) f)
    = filter (fun ir => date_of col ir.2 > s2) f).
  { apply list_filter_filter_l. intros ir. lia. }
  eexists _, _.
  split; [by apply getitem_mask_returned|].
  split; [by apply getitem_mask_returned|]. split; [|split].
  - rewrite <- Hnest. apply sublist_filter.
  - intros ir. rewrite list_elem_of_filter. lia.
  - pose proof (call_twice (ByDate s1 col) (ByDate s2 col) h df f Hdf) as Htwice.
    cbn [call keeps] in Htwice. rewrite Htwice. f_equal.
    rewrite <- Hnest. symmetry. apply list_filter_filter.
Qed.

Lemma filter_by_date_is_exclusive_and_antitone_witness :
  exists f1 f2,
    returned (filter_by_date 0%nat (Timestamp.of_date 2023 5 7) week_end_column
                [read_csv epel_csv]) = Some f1
    /\ returned (filter_by_date 0%nat (Timestamp.of_date 2023 5 21) week_end_column
                   [read_csv epel_csv]) = Some f2
    /\ sublist f2 f1.
Proof.
  destruct (filter_by_date_is_exclusive_and_antitone [read_csv epel_csv] 0%nat
              (read_csv epel_csv) week_end_column
              (Timestamp.of_date 2023 5 7) (Timestamp.of_date 2023 5 21) eq_refl)
    as (f1 & f2 & H1 & H2 & H3 & _).
  { by vm_compute. }
  by exists f1, f2.
Defined.

Lemma load_epel_data_frame csv h :
  returned (load_epel_data csv h)
    = Some (filter (fun ir => week_end ir.2 ∉ error_timestamps)
              (filter (fun ir => repo_tag ir.2 ∈ Config.EPEL_REPOS)
                 (read_csv csv))).
Proof.
  unfold load_epel_data, bind at 1, alloc. unfold bind at 1.
  rewrite (getitem_mask_run _ (length h) (read_csv csv))
    by apply alloc_lookup_new.
  set (kept := filter _ (read_csv csv)).
  destruct (remove_data_errors Config.ERROR_DATES ((h ++ [read_csv csv]) ++ [kept])
              (length (h ++ [read_csv csv])) kept) as (r' & h' & Hrun & Hr).
  { apply alloc_lookup_new. }
  { eapply index_sublist; [apply sublist_filter|].
    unfold frame_index, read_csv. rewrite fst_zip by (by rewrite length_seq).
    apply NoDup_seq. }
  unfold bind at 1. rewrite Hrun. unfold returned, ret. simpl. exact Hr.
Qed.

Lemma elem_of_read_csv csv i r :
  (i, r) ∈ read_csv csv <-> csv !! i = Some r.
Proof.
  unfold read_csv. rewrite list_elem_of_lookup. split.
  - intros [k Hk]. rewrite lookup_zip_with in Hk.
    destruct (seq 0 (length csv) !! k) as [j|] eqn:Hj; [|done].
    apply lookup_seq in Hj as [-> _]. simpl in Hk.
    destruct (csv !! k) as [r'|] eqn:Hr; [|done].
    simpl in Hk. by injection Hk as <- <-.
  - intros Hr. exists i. rewrite lookup_zip_with.
    rewrite (proj2 (lookup_seq 0 (length csv) i i)); [simpl; by rewrite Hr|].
    split; [done|]. by eapply lookup_lt_Some.
Qed.

(** X14: the frame [load_epel_data] returns has no label twice, and a row
    carries label [i] exactly when it is line [i] of the file, its
    repository is one of [EPEL_REPOS] and its [week_end] is no error
    date: the labels still are the line numbers of the file. *)
Theorem load_epel_data_keeps_line_numbers csv h :
  exists out,
    returned (load_epel_data csv h) = Some out
    /\ NoDup (frame_index out)
    /\ forall i r,
         (i, r) ∈ out <->
         csv !! i = Some r /\ repo_tag r ∈ Config.EPEL_REPOS
         /\ week_end r ∉ error_timestamps.
Proof.
  eexists. split; [apply load_epel_data_frame|]. split.
  - eapply index_sublist; [apply sublist_filter|].
    eapply index_sublist; [apply sublist_filter|].
    unfold frame_index, read_csv. rewrite fst_zip by (by rewrite length_seq).
    apply NoDup_seq.
  - intros i r. rewrite !list_elem_of_filter, elem_of_read_csv. simpl. tauto.
Qed.

End EpelCallFacts.


(** ** More on the DockerHub loader *)

Module DockerHubGroupFacts.
Import DockerHub DockerHubGroups PandasExamples DockerHubExamples.
Import StoreFacts DockerHubFacts.

Section Exact.
Context (f : DataFrame Z).
Context (Hnum : Forall (fun c => is_numeric c.2) (columns f)).

Lemma getitem_numeric h df c :
  h !! df = Some f ->
  getitem df c h
    = (match numeric_column f c with
       | Some l => inr (Numeric l)
       | None => inl (KeyError c)
       end, h).
Proof.
  intros Hdf. rewrite (getitem_run f) by done. unfold numeric_column.
  destruct (lookup_column c (columns f)) as [[l|l]|] eqn:Hc; try done.
  apply lookup_column_elem in Hc.
  by destruct (proj1 (Forall_forall _ _) Hnum _ Hc).
Qed.

Lemma sum_loop_exact h df cs : forall acc,
  h !! df = Some f ->
  exists res,
    for_fold cs (Numeric acc) (fun c acc =>
      s <- getitem df c ;; series_add acc s)%py h = (res, h)
    /\ match add_columns f acc cs with
       | Some l => res = inr (Numeric l)
       | None => exists k, res = inl (KeyError k)
       end.
Proof.
  induction cs as [|c cs IH]; intros acc Hdf; simpl.
  - by eexists.
  - unfold bind at 1 2. rewrite getitem_numeric by done.
    destruct (numeric_column f c) as [l|]; simpl.
    + apply IH, Hdf.
    + eexists. split; [done|]. by eexists.
Qed.

Lemma sum_of_exact h df c0 cs :
  h !! df = Some f ->
  exists res,
    sum_of df c0 cs h = (res, h)
    /\ match sum_columns f (c0 :: cs) with
       | Some l => res = inr (Numeric l)
       | None => exists k, res = inl (KeyError k)
       end.
Proof.
  intros Hdf. unfold sum_of, bind at 1. rewrite getitem_numeric by done.
  simpl. destruct (numeric_column f c0) as [l|]; simpl.
  - by apply sum_loop_exact.
  - eexists. split; [done|]. by eexists.
Qed.

Lemma aggregate_step_exact h df dh g name c0 cs
    (K : M (store (DataFrame Z)) ref) :
  h !! df = Some f -> h !! dh = Some g -> df <> dh ->
  match sum_columns f (c0 :: cs) with
  | Some l =>
      exists h', (s <- sum_of df c0 cs ;; setitem dh name s ;;; K)%py h = K h'
        /\ h' !! df = Some f
        /\ h' !! dh = Some (mkDataFrame (index g)
                              (set_column name (Numeric l) (columns g)))
  | None =>
      exists k, (s <- sum_of df c0 cs ;; setitem dh name s ;;; K)%py h
                = (inl (KeyError k), h)
  end.
Proof.
  intros Hdf Hdh Hne.
  destruct (sum_of_exact h df c0 cs Hdf) as (res & Hrun & Hres).
  destruct (sum_columns f (c0 :: cs)) as [l|].
  - subst res. unfold bind at 1. rewrite Hrun.
    unfold bind, setitem, update. rewrite Hdh.
    eexists. split; [done|]. split.
    + by rewrite list_lookup_insert_ne.
    + rewrite list_lookup_insert_eq; [done|]. by eapply lookup_lt_Some.
  - destruct Hres as (k & ->). exists k. unfold bind at 1. by rewrite Hrun.
Qed.

End Exact.

Lemma processed_numeric csv :
  Forall (fun c => is_numeric c.2) (columns csv) ->
  Forall (fun c => is_numeric c.2) (columns (processed csv)).
Proof.
  intros Hnum. unfold processed. simpl.
  rewrite !Forall_fmap. eapply Forall_impl; [exact Hnum|].
  by intros [n [l|l]].
Qed.

Ltac aggregate_exact Hnum Hdf Hdh l h' Hdf' Hdh' :=
  match goal with
  | Hne : ?df <> ?dh
    |- context [bind (sum_of ?df ?c0 ?cs)
                  (fun s => bind (setitem ?dh ?name s) (fun _ => ?K)) ?h] =>
      let k := fresh "k" in
      let Hrun := fresh "Hrun" in
      let Hstep := fresh "Hstep" in
      pose proof (aggregate_step_exact _ Hnum h df dh _ name c0 cs K Hdf Hdh Hne)
        as Hstep;
      destruct (sum_columns _ (c0 :: cs)) as [l|];
      [destruct Hstep as (h' & Hrun & Hdf' & Hdh')
      |destruct Hstep as (k & Hrun)];
      rewrite Hrun; clear Hrun;
      [|eexists _, _; split; [done|]; cbn [mbind option_bind]; by exists k]
  end.

(** [load_dockerhub_data] on a file of numeric columns, by the table of
    groups. *)
Lemma load_dockerhub_data_run csv h :
  Forall (fun c => is_numeric c.2) (columns csv) ->
  exists res h',
    load_dockerhub_data csv h = (res, h')
    /\ match aggregated csv with
       | Some out => exists r, res = inr r /\ h' !! r = Some out
       | None => exists k, res = inl (KeyError k)
       end.
Proof.
  intros Hnum. pose proof (processed_numeric csv Hnum) as Hnum'.
  unfold load_dockerhub_data, bind at 1.
  destruct (load_and_process_run csv h Hnum) as (h0 & -> & Hdf & Hlen).
  set (df := (length h + 2)%nat) in *.
  unfold bind at 1, bind at 1. rewrite (deref_run h0 df _ Hdf).
  unfold ret at 1, bind at 1, new_frame, alloc. rewrite Hlen.
  set (dh := (length h + 3)%nat).
  set (g0 := mkDataFrame _ _).
  assert (Hne : df <> dh) by (subst df dh; lia).
  assert (Hdf0 : (h0 ++ [g0]) !! df = Some (processed csv))
    by by apply alloc_lookup_old.
  assert (Hdh0 : (h0 ++ [g0]) !! dh = Some g0)
    by (subst dh; rewrite <- Hlen; apply alloc_lookup_new).
  clearbody df dh. revert Hdf0 Hdh0. generalize (h0 ++ [g0]).
  clear Hdf Hlen h0. intros h1 Hdf1 Hdh1.
  unfold aggregated, group_definitions. cbn [aggregate_groups].
  aggregate_exact Hnum' Hdf1 Hdh1 l1 h2 Hdf2 Hdh2.
  rewrite getitem_as_sum. aggregate_exact Hnum' Hdf2 Hdh2 l2 h3 Hdf3 Hdh3.
  rewrite getitem_as_sum. aggregate_exact Hnum' Hdf3 Hdh3 l3 h4 Hdf4 Hdh4.
  aggregate_exact Hnum' Hdf4 Hdh4 l4 h5 Hdf5 Hdh5.
  aggregate_exact Hnum' Hdf5 Hdh5 l5 h6 Hdf6 Hdh6.
  eexists _, _. split; [done|]. cbn [mbind option_bind].
  eexists. split; [done|]. exact Hdh6.
Qed.

Lemma load_dockerhub_data_exact csv h :
  Forall (fun c => is_numeric c.2) (columns csv) ->
  match aggregated csv with
  | Some out => returned (load_dockerhub_data csv h) = Some out
  | None => exists k, (load_dockerhub_data csv h).1 = inl (KeyError k)
  end.
Proof.
  intros Hnum.
  destruct (load_dockerhub_data_run csv h Hnum) as (res & h' & -> & Hres).
  destruct (aggregated csv) as [out|].
  - destruct Hres as (r & -> & Hr). exact Hr.
  - exact Hres.
Qed.

(** X15: on a file of numeric columns the sums written out in
    [load_dockerhub_data] compute what the table of groups says: the frame
    returned has one column per group, the cell-wise sum of the deltas of
    its raw columns, over the dates without the first; and when the table
    cannot be computed the loader raises a [KeyError]. *)
Theorem load_follows_group_definitions csv h :
  Forall (fun c => is_numeric c.2) (columns csv) ->
  match aggregated csv with
  | Some out => returned (load_dockerhub_data csv h) = Some out
  | None => exists k, (load_dockerhub_data csv h).1 = inl (KeyError k)
  end.
Proof.
  intros Hnum.
  destruct (load_dockerhub_data_run csv h Hnum) as (res & h' & Hrun & Hres).
  rewrite Hrun. destruct (aggregated csv) as [out|].
  - destruct Hres as (r & -> & Hr). unfold returned. simpl. exact Hr.
  - destruct Hres as (k & ->). by exists k.
Qed.

Lemma full_csv_numeric : Forall (fun c => is_numeric c.2) (columns full_csv).
Proof. apply Forall_fmap, Forall_forall. by intros c _. Qed.

Lemma load_follows_group_definitions_witness :
  match aggregated full_csv with
  | Some out => returned (load_dockerhub_data full_csv []) = Some out
  | None => exists k, (load_dockerhub_data full_csv []).1 = inl (KeyError k)
  end.
Proof.
  apply (load_follows_group_definitions full_csv []).
  apply Forall_fmap, Forall_forall. by intros c _.
Defined.

Lemma add_columns_ext f f' cs : forall acc,
  (forall c, c ∈ cs -> numeric_column f c = numeric_column f' c) ->
  add_columns f acc cs = add_columns f' acc cs.
Proof.
  induction cs as [|c cs IH]; intros acc Hext; [done|]. simpl.
  rewrite (Hext c) by by left.
  destruct (numeric_column f' c); [|done]. simpl.
  apply IH. intros c' Hc'. apply Hext. by right.
Qed.

Lemma sum_columns_ext f f' cs :
  (forall c, c ∈ cs -> numeric_column f c = numeric_column f' c) ->
  sum_columns f cs = sum_columns f' cs.
Proof.
  destruct cs as [|c0 cs]; intros Hext; [done|]. simpl.
  rewrite (Hext c0) by by left.
  destruct (numeric_column f' c0); [|done]. simpl.
  apply add_columns_ext. intros c' Hc'. apply Hext. by right.
Qed.

Lemma aggregate_groups_ext f f' groups :
  (forall name cs c, (name, cs) ∈ groups -> c ∈ cs ->
                     numeric_column f c = numeric_column f' c) ->
  aggregate_groups f groups = aggregate_groups f' groups.
Proof.
  induction groups as [|[name cs] groups IH]; intros Hext; [done|]. simpl.
  rewrite (sum_columns_ext f f' cs)
    by (intros c Hc; apply (Hext name cs); [by left|done]).
  rewrite IH; [done|].
  intros name' cs' c Hg Hc. apply (Hext name' cs'); [by right|done].
Qed.

Lemma groups_read_raw_columns name cs c :
  (name, cs) ∈ group_definitions -> c ∈ cs -> c ∈ raw_columns.
Proof.
  unfold group_definitions. rewrite !elem_of_cons, elem_of_nil.
  intros [[= -> ->]|[[= -> ->]|[[= -> ->]|[[= -> ->]|[[= -> ->]|[]]]]]] Hc;
    apply group_in_raw_columns; tauto.
Qed.

(** X16: two files of numeric columns with the same dates and the same
    raw columns give the same table, whatever other columns they have and
    in whatever order the columns stand. *)
Theorem unread_columns_do_not_matter csv csv' h h' :
  Forall (fun c => is_numeric c.2) (columns csv) ->
  Forall (fun c => is_numeric c.2) (columns csv') ->
  index csv = index csv' ->
  (forall c, c ∈ raw_columns ->
             lookup_column c (columns csv) = lookup_column c (columns csv')) ->
  returned (load_dockerhub_data csv h) = returned (load_dockerhub_data csv' h').
Proof.
  intros Hnum Hnum' Hidx Hraw.
  assert (Hagg : aggregated csv = aggregated csv').
  { unfold aggregated. rewrite Hidx.
    rewrite (aggregate_groups_ext (processed csv) (processed csv')); [done|].
    intros name cs c Hg Hc. unfold numeric_column.
    rewrite !lookup_processed, Hraw; [done|].
    by eapply groups_read_raw_columns. }
  pose proof (load_dockerhub_data_exact csv h Hnum) as H1.
  pose proof (load_dockerhub_data_exact csv' h' Hnum') as H2.
  rewrite <- Hagg in H2. destruct (aggregated csv) as [out|].
  - by rewrite H1, H2.
  - destruct H1 as (k1 & H1), H2 as (k2 & H2).
    unfold returned. by rewrite H1, H2.
Qed.

Lemma unread_columns_do_not_matter_witness :
  returned (load_dockerhub_data full_csv [])
    = returned (load_dockerhub_data extended_csv []).
Proof.
  apply (unread_columns_do_not_matter full_csv extended_csv [] []).
  - apply Forall_fmap, Forall_forall. by intros c _.
  - constructor; [done|]. apply Forall_fmap, Forall_forall. by intros c _.
  - reflexivity.
  - intros c Hc. unfold extended_csv. cbn [columns lookup_column].
    rewrite decide_False; [done|].
    intros <-. revert Hc. apply (bool_decide_unpack _). by vm_compute.
Defined.

Lemma text_is_not_diffable (l : list (option string)) i x :
  l !! i = Some (Some x) -> (2 <= length l)%nat -> ~ diffable (Object l).
Proof.
  intros Hi Hlen Hd. unfold diffable in Hd.
  apply not_true_iff_false in Hd. apply Hd.
  apply existsb_exists. exists true. split; [|done].
  apply list_elem_of_In.
  destruct i as [|j].
  - destruct l as [|a [|b l]]; simpl in *; try lia.
    injection Hi as ->. destruct b; by left.
  - apply (list_elem_of_lookup_2 _ j).
    rewrite lookup_zip_with, lookup_drop. simpl. rewrite Hi. simpl.
    destruct (l !! j) as [y|] eqn:Hj.
    + simpl. by destruct y.
    + apply lookup_ge_None in Hj. apply lookup_lt_Some in Hi. lia.
Qed.

(** X17: one column of text of two rows or more anywhere in the file, read
    by a sum or not, makes [load_dockerhub_data] raise [TypeError]: [diff]
    is taken of the whole frame, and a string cannot be subtracted.  (A
    column of a single row has nothing to subtract.) *)
Theorem text_column_raises_type_error csv h name l i x :
  (name, Object l) ∈ columns csv ->
  l !! i = Some (Some x) ->
  (2 <= length l)%nat ->
  (load_dockerhub_data csv h).1 = inl TypeError.
Proof.
  intros Hin Hi Hlen. unfold load_dockerhub_data, bind at 1.
  rewrite load_and_process_error; [done|].
  intros Hnum. apply (text_is_not_diffable l i x Hi Hlen).
  by apply (proj1 (Forall_forall _ _) Hnum _ Hin).
Qed.

Lemma text_column_raises_type_error_witness :
  (load_dockerhub_data annotated_csv []).1 = inl TypeError.
Proof.
  apply (text_column_raises_type_error annotated_csv [] "notes"
           [Some "a"; Some "b"; Some "c"] 0%nat "a").
  - by left.
  - reflexivity.
  - simpl. lia.
Defined.

(** X18: from a file with one cell per date in every column, all of them
    numeric and none of the raw columns missing, [load_dockerhub_data]
    returns a table with one date less than the file and one cell per
    date in every column; a file of a single day gives a table without
    rows. *)
Theorem returned_table_is_rectangular csv h :
  rectangular csv ->
  Forall (fun c => is_numeric c.2) (columns csv) ->
  Forall (fun c => is_Some (lookup_column c (columns csv))) raw_columns ->
  exists out,
    returned (load_dockerhub_data csv h) = Some out
    /\ length (index out) = (length (index csv) - 1)%nat
    /\ Forall (fun c => exists l, c.2 = Numeric l
                                  /\ length l = length (index out))
              (columns out).
Proof.
  intros Hrect Hnum Hall.
  destruct (load_dockerhub_data_cases
              (fun l => length l = (length (index csv) - 1)%nat) csv h)
    as (res & h' & Hrun & Hres); [| |done|].
  { intros l1 l2 H1 H2. rewrite length_zip_with. lia. }
  { apply processed_columns; [|done]. intros name l Hl.
    pose proof (proj1 (Forall_forall _ _) Hrect _ Hl) as Hlen. simpl in Hlen.
    by rewrite length_drop, length_diff_from, Hlen. }
  unfold returned. rewrite Hrun. unfold load_outcome in Hres.
  destruct res as [e|r].
  - destruct Hres as (k & -> & Hk & Hk').
    pose proof (proj1 (Forall_forall _ _) Hall k Hk) as [s Hs].
    rewrite lookup_processed, Hs in Hk'. done.
  - destruct Hres as (cols & Hout & _ & Hcols & _). simpl.
    eexists. split; [exact Hout|]. simpl. rewrite length_drop. split; [done|].
    exact Hcols.
Qed.

Lemma returned_table_is_rectangular_witness :
  exists out,
    returned (load_dockerhub_data full_csv []) = Some out
    /\ length (index out) = (length (index full_csv) - 1)%nat
    /\ Forall (fun c => exists l, c.2 = Numeric l
                                  /\ length l = length (index out))
              (columns out).
Proof.
  apply (returned_table_is_rectangular full_csv []).
  - apply Forall_fmap, Forall_forall. by intros c _.
  - apply Forall_fmap, Forall_forall. by intros c _.
  - apply (bool_decide_unpack _). by vm_compute.
Defined.

(** *** The deltas of a counter add up to its growth *)

Lemma diff_from_whole vs : forall p,
  diff_from (Some p) (Some <$> vs) = Some <$> zip_with Z.sub vs (p :: vs).
Proof.
  induction vs as [|v vs IH]; intros p; [done|].
  simpl. f_equal. apply IH.
Qed.

Lemma total_telescopes vs : forall p,
  total (Some <$> zip_with Z.sub vs (p :: vs)) = default p (last vs) - p.
Proof.
  induction vs as [|v vs IH]; intros p; simpl; [lia|].
  fold (total (Some <$> zip_with Z.sub vs (v :: vs))). rewrite IH.
  rewrite last_cons. destruct (last vs); simpl; lia.
Qed.

Lemma total_of_deltas vs :
  total (drop 1 (diff_from None (Some <$> vs))) = growth vs.
Proof.
  destruct vs as [|v vs]; [done|]. simpl. rewrite drop_0.
  rewrite diff_from_whole, total_telescopes. unfold growth.
  rewrite last_cons. destruct (last vs); simpl; lia.
Qed.

Lemma whole_add m l1 : forall l2,
  whole m l1 -> whole m l2 ->
  whole m (zip_with nan_add l1 l2)
  /\ total (zip_with nan_add l1 l2) = total l1 + total l2.
Proof.
  revert m. induction l1 as [|c1 l1 IH]; intros m l2 [Hlen1 Hall1] [Hlen2 Hall2].
  - simpl in *. subst m. destruct l2; [|done]. by repeat split.
  - destruct l2 as [|c2 l2]; simpl in *; [congruence|].
    destruct m as [|m]; [done|].
    apply Forall_cons in Hall1 as [[v1 ->] Hall1].
    apply Forall_cons in Hall2 as [[v2 ->] Hall2].
    destruct (IH m l2) as [[Hlen Hall] Htot]; [split; [lia|done]..|].
    repeat split.
    + simpl. lia.
    + constructor; [by eexists|done].
    + simpl. fold (total (zip_with nan_add l1 l2)) (total l1) (total l2). lia.
Qed.

Section Totals.
Context (f : DataFrame Z) (m : nat) (T : string -> Z).

Lemma add_columns_total cs : forall acc,
  whole m acc -> Forall (adds_up f m T) cs ->
  exists l, add_columns f acc cs = Some l /\ whole m l
            /\ total l = total acc + foldr (fun c s => T c + s) 0 cs.
Proof.
  induction cs as [|c cs IH]; intros acc Hacc Hcs; simpl.
  - exists acc. split; [done|]. split; [done|]. lia.
  - apply Forall_cons in Hcs as [(l & -> & Hl & Htot) Hcs]. simpl.
    destruct (whole_add m acc l Hacc Hl) as [Hsum Hsumtot].
    destruct (IH _ Hsum Hcs) as (l' & -> & Hl' & Htot').
    exists l'. split; [done|]. split; [done|]. lia.
Qed.

Lemma sum_columns_total cs :
  cs <> [] -> Forall (adds_up f m T) cs ->
  exists l, sum_columns f cs = Some l /\ whole m l
            /\ total l = foldr (fun c s => T c + s) 0 cs.
Proof.
  destruct cs as [|c0 cs]; [done|]. intros _ Hcs.
  apply Forall_cons in Hcs as [(l0 & Hl0 & Hw & Htot) Hcs].
  simpl. rewrite Hl0. simpl.
  destruct (add_columns_total cs l0 Hw Hcs) as (l & -> & Hl & Htot').
  exists l. split; [done|]. split; [done|]. lia.
Qed.

Lemma aggregate_groups_total groups :
  Forall (fun g => g.2 <> [] /\ Forall (adds_up f m T) g.2) groups ->
  exists cols,
    aggregate_groups f groups = Some cols
    /\ Forall2 (fun g col =>
                  col.1 = g.1
                  /\ exists l, col.2 = Numeric l
                               /\ total l = foldr (fun c s => T c + s) 0 g.2)
               groups cols.
Proof.
  induction groups as [|[name cs] groups IH]; intros Hgroups; simpl.
  - exists []. split; [done|]. constructor.
  - apply Forall_cons in Hgroups as [[Hne Hcs] Hgroups]. simpl in *.
    destruct (sum_columns_total cs Hne Hcs) as (l & -> & _ & Htot).
    destruct (IH Hgroups) as (cols & -> & Hcols). simpl.
    eexists. split; [done|]. constructor; [|done].
    split; [done|]. by exists l.
Qed.

End Totals.

Lemma groups_are_not_empty name cs :
  (name, cs) ∈ group_definitions -> cs <> [].
Proof.
  unfold group_definitions. rewrite !elem_of_cons, elem_of_nil.
  by intros [[= -> ->]|[[= -> ->]|[[= -> ->]|[[= -> ->]|[[= -> ->]|[]]]]]].
Qed.

(** A clean column of the file, once processed: numbers that add up to
    the growth of the counter. *)
Lemma processed_counter csv c :
  clean csv -> rectangular csv ->
  is_Some (lookup_column c (columns csv)) ->
  exists l, numeric_column (processed csv) c = Some l
            /\ whole (length (index csv) - 1) l
            /\ total l = growth (counter csv c).
Proof.
  intros Hclean Hrect [s Hs]. pose proof (lookup_column_elem _ _ _ Hs) as Hin.
  destruct (proj1 (Forall_forall _ _) Hclean _ Hin) as (vs & Hvs).
  pose proof (proj1 (Forall_forall _ _) Hrect _ Hin) as Hlen.
  simpl in Hvs, Hlen. subst s. rewrite length_fmap in Hlen.
  unfold numeric_column, counter. rewrite lookup_processed, Hs. simpl.
  eexists. split; [done|]. split; [split|].
  - by rewrite length_drop, length_diff_from, length_fmap, Hlen.
  - destruct vs as [|v vs]; simpl; [constructor|].
    rewrite drop_0, diff_from_whole. apply Forall_fmap, Forall_forall.
    intros x _. by eexists.
  - rewrite total_of_deltas. f_equal.
    rewrite <- list_fmap_compose. by rewrite list_fmap_id.
Qed.

(** X19: on a file without gaps, each column of the table returned adds
    up to the growth of its raw counters from the first date to the last:
    taking deltas loses the first reading and nothing else. *)
Theorem deltas_add_up_to_growth csv h :
  clean csv ->
  rectangular csv ->
  Forall (fun c => is_Some (lookup_column c (columns csv))) raw_columns ->
  exists out,
    returned (load_dockerhub_data csv h) = Some out
    /\ Forall2 (fun g col =>
                  col.1 = g.1
                  /\ exists l,
                       col.2 = Numeric l
                       /\ total l
                          = foldr (fun c s => growth (counter csv c) + s) 0 g.2)
               group_definitions (columns out).
Proof.
  intros Hclean Hrect Hall.
  assert (Hnum : Forall (fun c => is_numeric c.2) (columns csv)).
  { eapply Forall_impl; [exact Hclean|]. by intros [n s] (vs & ->). }
  destruct (aggregate_groups_total (processed csv) (length (index csv) - 1)
              (fun c => growth (counter csv c)) group_definitions)
    as (cols & Hcols & Htot).
  { apply Forall_forall. intros [name cs] Hg. simpl.
    split; [by eapply groups_are_not_empty|].
    apply Forall_forall. intros c Hc. apply processed_counter; [done..|].
    apply (proj1 (Forall_forall _ _) Hall).
    by eapply groups_read_raw_columns. }
  pose proof (load_dockerhub_data_exact csv h Hnum) as Hload.
  unfold aggregated in Hload. rewrite Hcols in Hload. simpl in Hload.
  eexists. split; [exact Hload|]. exact Htot.
Qed.

Lemma deltas_add_up_to_growth_witness :
  exists out,
    returned (load_dockerhub_data full_csv []) = Some out
    /\ Forall2 (fun g col =>
                  col.1 = g.1
                  /\ exists l,
                       col.2 = Numeric l
                       /\ total l
                          = foldr (fun c s => growth (counter full_csv c) + s)
                                  0 g.2)
               group_definitions (columns out).
Proof.
  apply (deltas_add_up_to_growth full_csv []).
  - apply Forall_fmap, Forall_forall. intros c _. by exists [100; 140; 142].
  - apply Forall_fmap, Forall_forall. by intros c _.
  - apply (bool_decide_unpack _). by vm_compute.
Defined.

End DockerHubGroupFacts.


(** ** More on [add_total_column] *)

Module TableBuilderCopyFacts.
Import TableBuilder PandasExamples StoreFacts TableBuilderFacts.

Lemma lookup_set_column_ne name n s cols :
  name <> n ->
  lookup_column name (set_column n s cols) = lookup_column name cols.
Proof.
  intros Hne. induction cols as [|[m c] cols IH]; simpl.
  - by rewrite decide_False.
  - destruct (decide (m = n)) as [->|Hm]; simpl.
    + by rewrite !decide_False.
    + case_decide; [done|]. exact IH.
Qed.

(** X20: [add_total_column] returns a new frame and changes no frame that
    existed: the input is as it was, the new frame has the index and every
    column of the input other than [total], and a numeric [total] with one
    cell per row. *)
Theorem add_total_column_works_on_a_copy {I} (h : store (DataFrame I)) df f :
  h !! df = Some f ->
  exists r h' out,
    add_total_column df h = (inr r, h')
    /\ h' !! r = Some out
    /\ r <> df
    /\ (forall r0 obj, h !! r0 = Some obj -> h' !! r0 = Some obj)
    /\ index out = index f
    /\ (forall name, name <> "total" ->
          lookup_column name (columns out) = lookup_column name (columns f))
    /\ exists total,
         lookup_column "total" (columns out) = Some (Numeric total)
         /\ length total = length (index f).
Proof.
  intros Hdf. rewrite (add_total_column_run h df f Hdf).
  eexists _, _, _. split; [done|].
  split; [apply alloc_lookup_new|]. split; [|split; [|split; [|split]]].
  - apply lookup_lt_Some in Hdf. lia.
  - intros r0 obj. apply alloc_lookup_old.
  - done.
  - intros name Hname. simpl. by apply lookup_set_column_ne.
  - simpl. rewrite lookup_set_column. unfold sum_axis1. eexists. split; [done|].
    by rewrite length_fmap, length_seq.
Qed.

Lemma add_total_column_works_on_a_copy_witness :
  exists r h' out,
    add_total_column 0%nat [hits_table] = (inr r, h')
    /\ h' !! r = Some out
    /\ r <> 0%nat
    /\ h' !! 0%nat = Some hits_table
    /\ lookup_column "Rocky Linux" (columns out)
       = lookup_column "Rocky Linux" (columns hits_table).
Proof.
  destruct (add_total_column_works_on_a_copy [hits_table] 0%nat hits_table eq_refl)
    as (r & h' & out & Hrun & Hout & Hne & Hold & _ & Hcols & _).
  exists r, h', out. split; [done|]. split; [done|]. split; [done|].
  split; [by apply Hold|]. by apply Hcols.
Defined.

End TableBuilderCopyFacts.
